(** * Universal data dashboard (host.py): aggregation, filtering, search, summary

    A shallow embedding of the data pipeline of [host.py]: the column
    classifier (lines 175-185), the aggregation button of the advanced mode
    (lines 244-265), the allow-list filters and the free-text search
    (lines 289-309) and the automatic charts and summary tables of the simple
    mode (lines 411-497).

    The script delegates its computations to pandas.  The pandas operations it
    calls are modelled here with the behaviour of pandas 1.x/2.x under the
    arguments the script passes (and the defaults it leaves untouched):
    [groupby] with [sort=True] and [dropna=True], [Series.str.contains] with
    [regex=True], [astype(str)] rendering a missing value as the text [nan],
    [Series.mode] returning its modes in ascending order, [DataFrame.apply]
    leaving the columns of a frame without rows alone.  Of streamlit, two
    refusals are modelled: [st.columns] of a number that is not positive and
    [st.dataframe] of a table with two columns of the same name.

    Integers are 64-bit words.  The arithmetic of float64 is left to the
    library: a float column has its own carrier, with the sum, the order and
    the rendering the library gives, and no law is assumed of them.  Text is
    modelled for ASCII characters; searching other text is not modelled. *)

From Stdlib Require Import ZArith Lia List Bool String Ascii.
From Stdlib Require Import Permutation Sorted OrderedTypeEx DecimalString.
From coqutil Require Import Word.Interface Word.Properties Word.Naive.
Import ListNotations.

Local Open Scope string_scope.
Local Open Scope list_scope.

(* ===================================================================== *)
(** ** Numeric cells *)
(* ===================================================================== *)

(** The values of an [int64] column.  The development only relies on their
    addition being associative and commutative with a unit, which is the case
    of 64-bit integers, whose addition wraps around (instance [int64] below).
    [num_str] is [str] of a value, [num_leb] the order used by [min] and
    [max]. *)
Class Numeric := {
  num : Type;
  num_zero : num;
  num_add : num -> num -> num;
  num_leb : num -> num -> bool;
  num_str : num -> string;
  num_add_assoc : forall a b c, num_add a (num_add b c) = num_add (num_add a b) c;
  num_add_comm : forall a b, num_add a b = num_add b a;
  num_add_0_l : forall a, num_add num_zero a = a
}.

(** numpy's [int64]: 64-bit two's complement words; sums wrap around. *)
#[export] Instance int64 : Numeric := {|
  num := Naive.word64;
  num_zero := word.of_Z 0;
  num_add := word.add;
  num_leb := fun a b => Z.leb (word.signed a) (word.signed b);
  num_str := fun a => NilZero.string_of_int (Z.to_int (word.signed a));
  num_add_assoc := word.add_assoc;
  num_add_comm := word.add_comm;
  num_add_0_l := word.add_0_l
|}.

Definition i64 (z : Z) : @num int64 := word.of_Z z.

(** The values of a [float64] column other than [NaN], which is the missing
    value.  IEEE addition is commutative but not associative, and the order
    in which the library adds the values of a group up is its own (pandas
    compensates the rounding errors of a running sum): [flt_sum] is the sum
    the library returns for a list of values, and nothing is assumed of it.
    [flt_str] is [str] of a value ([20.0] for twenty), [flt_leb] the order
    used by [min] and [max]. *)
Class Floating := {
  flt : Type;
  flt_sum : list flt -> flt;
  flt_leb : flt -> flt -> bool;
  flt_str : flt -> string
}.

(** The float [0.0] on its own: a sum of zeros is zero.  This is the carrier
    of the example datasets, which have no other float cell. *)
#[export] Instance only_zero : Floating := {|
  flt := unit;
  flt_sum := fun _ => tt;
  flt_leb := fun _ _ => true;
  flt_str := fun _ => "0.0"
|}.

(* ===================================================================== *)
(** ** Outcomes of a computation *)
(* ===================================================================== *)

(** Python exceptions the modelled code can raise. *)
Inductive exn :=
| KeyError (name : string)
| ValueError (msg : string)
| ReError (msg : string)
| StreamlitAPIException.

(** A computation returns, raises, or leaves the part of pandas that is
    modelled here ([Unmodelled]: the code does something, the model does not
    say what). *)
Inductive result (A : Type) :=
| Ok (a : A)
| Raise (e : exn)
| Unmodelled.
Arguments Ok {A} a.
Arguments Raise {A} e.
Arguments Unmodelled {A}.

Definition bind {A B} (m : result A) (k : A -> result B) : result B :=
  match m with
  | Ok a => k a
  | Raise e => Raise e
  | Unmodelled => Unmodelled
  end.

Notation "x <- m ;; k" := (bind m (fun x => k))
  (at level 61, m at next level, right associativity).

Fixpoint mapM {A B} (f : A -> result B) (l : list A) : result (list B) :=
  match l with
  | [] => Ok []
  | a :: l' => b <- f a ;; bs <- mapM f l' ;; Ok (b :: bs)
  end.

(* ===================================================================== *)
(** ** Strings *)
(* ===================================================================== *)

(** Python [str] values are held as their UTF-8 bytes; comparing the bytes
    lexicographically is comparing the code points, which is Python's order
    on [str]. *)

Definition mem (x : string) (l : list string) : bool :=
  existsb (String.eqb x) l.

(** Python truthiness of a [str]: the empty string is false. *)
Definition truthy (s : string) : bool :=
  match s with EmptyString => false | String _ _ => true end.

(* ===================================================================== *)
(** ** Regular expressions (Python's [re], as used by [str.contains]) *)
(* ===================================================================== *)

(** [Series.str.contains(pat, case=False, na=False)] leaves [regex=True]: it
    runs [re.compile(pat, flags=re.IGNORECASE)] and then [search] on every
    value.  The fragment of the pattern syntax modelled here has literal
    characters, [.], [|], groups, the repeats [*], [+], [?] with their lazy
    forms, and a backslash before a punctuation character.  Character sets,
    counted repeats, anchors, special escapes and extension groups are outside
    the fragment.  So is every pattern and every text with a character outside
    ASCII: [re] folds the case of such characters and reads them one code
    point at a time, where the bytes held here are several.  On ASCII text
    the bytes are the characters and case is folded on the letters [A-Z]. *)
Module Regex.

Inductive regex :=
| Never
| Empty
| Chr (c : ascii)
| Dot
| Cat (r s : regex)
| Alt (r s : regex)
| Star (r : regex).

Definition lower (c : ascii) : ascii :=
  let n := nat_of_ascii c in
  if (65 <=? n)%nat && (n <=? 90)%nat then ascii_of_nat (n + 32) else c.

Definition is_alnum (c : ascii) : bool :=
  let n := nat_of_ascii c in
  ((48 <=? n) && (n <=? 57) || (65 <=? n) && (n <=? 90) || (97 <=? n) && (n <=? 122))%nat.

Definition newline : ascii := ascii_of_nat 10.

Definition is_ascii (c : ascii) : bool := (nat_of_ascii c <? 128)%nat.

(** A text of ASCII characters only. *)
Fixpoint ascii_text (s : string) : bool :=
  match s with
  | EmptyString => true
  | String c s' => is_ascii c && ascii_text s'
  end.

Fixpoint nullable (r : regex) : bool :=
  match r with
  | Never | Chr _ | Dot => false
  | Empty | Star _ => true
  | Cat r1 r2 => nullable r1 && nullable r2
  | Alt r1 r2 => nullable r1 || nullable r2
  end.

(** The residual of [r] after reading [a], under [re.IGNORECASE]. *)
Fixpoint deriv (a : ascii) (r : regex) : regex :=
  match r with
  | Never | Empty => Never
  | Chr c => if Ascii.eqb (lower a) (lower c) then Empty else Never
  | Dot => if Ascii.eqb a newline then Never else Empty
  | Cat r1 r2 =>
      if nullable r1 then Alt (Cat (deriv a r1) r2) (deriv a r2)
      else Cat (deriv a r1) r2
  | Alt r1 r2 => Alt (deriv a r1) (deriv a r2)
  | Star r1 => Cat (deriv a r1) (Star r1)
  end.

(** Some prefix of [s] matches [r]. *)
Fixpoint match_prefix (r : regex) (s : string) : bool :=
  nullable r ||
  match s with
  | EmptyString => false
  | String a s' => match_prefix (deriv a r) s'
  end.

(** [pattern.search(s) is not None]: a match starts at some position of [s]. *)
Fixpoint search (r : regex) (s : string) : bool :=
  match_prefix r s ||
  match s with
  | EmptyString => false
  | String _ s' => search r s'
  end.

(** The state of the item a repeat operator would apply to. *)
Inductive quant := Plain | Repeated | Lazy.

(** A group being read: its finished branches and the items of the branch
    being read, latest first. *)
Record frame := { branches : list regex; items : list regex; last : quant }.

Definition empty_frame : frame := {| branches := []; items := []; last := Plain |}.

Definition seq_of (its : list regex) : regex :=
  fold_left (fun acc r => Cat r acc) its Empty.

Definition close (f : frame) : regex :=
  fold_left (fun acc b => Alt b acc) (branches f) (seq_of (items f)).

Definition push (r : regex) (f : frame) : frame :=
  {| branches := branches f; items := r :: items f; last := Plain |}.

Inductive compiled :=
| Pattern (r : regex)
| Error (msg : string)
| OutsideFragment.

(** Replace the latest item by [f] of it; an operator with no item before it
    has nothing to repeat. *)
Definition repeat_last (f : regex -> regex) (cur : frame) (k : frame -> compiled)
  : compiled :=
  match items cur with
  | [] => Error "nothing to repeat"
  | r :: rs => k {| branches := branches cur; items := f r :: rs; last := Repeated |}
  end.

(** What is left of the pattern is one backslash.  The tokenizer of [re]
    reads one token ahead: it meets this backslash, and raises, as soon as
    the token before it is taken. *)
Definition lone_backslash (p : string) : bool :=
  match p with
  | String c EmptyString => Ascii.eqb c "\"
  | _ => false
  end.

Fixpoint parse (p : string) (cur : frame) (stack : list frame) : compiled :=
  match p with
  | EmptyString =>
      match stack with
      | [] => Pattern (close cur)
      | _ :: _ => Error "missing ), unterminated subpattern"
      end
  | String c p' =>
      if negb (is_ascii c) then OutsideFragment
      else if Ascii.eqb c "\" then
        match p' with
        | EmptyString => Error "bad escape (end of pattern)"
        | String e p'' =>
            if lone_backslash p'' then Error "bad escape (end of pattern)"
            else if is_alnum e || negb (is_ascii e) then OutsideFragment
            else parse p'' (push (Chr e) cur) stack
        end
      else if Ascii.eqb c ")" then
        match stack with
        | [] => Error "unbalanced parenthesis"
        | f :: stack' =>
            if lone_backslash p' then Error "bad escape (end of pattern)"
            else parse p' (push (close cur) f) stack'
        end
      else if lone_backslash p' then Error "bad escape (end of pattern)"
      else if Ascii.eqb c "(" then
        match p' with
        | String "?" _ => OutsideFragment
        | _ => parse p' empty_frame (cur :: stack)
        end
      else if Ascii.eqb c "|" then
        parse p' {| branches := seq_of (items cur) :: branches cur;
                    items := []; last := Plain |} stack
      else if Ascii.eqb c "*" then
        match last cur with
        | Plain => repeat_last Star cur (fun f => parse p' f stack)
        | _ => match items cur with
               | [] => Error "nothing to repeat"
               | _ :: _ => Error "multiple repeat"
               end
        end
      else if Ascii.eqb c "+" then
        match last cur with
        | Plain => repeat_last (fun r => Cat r (Star r)) cur (fun f => parse p' f stack)
        | _ => OutsideFragment
        end
      else if Ascii.eqb c "?" then
        match last cur with
        | Plain => repeat_last (fun r => Alt r Empty) cur (fun f => parse p' f stack)
        | Repeated =>
            parse p' {| branches := branches cur; items := items cur; last := Lazy |} stack
        | Lazy => Error "multiple repeat"
        end
      else if Ascii.eqb c "." then parse p' (push Dot cur) stack
      else if Ascii.eqb c "[" || Ascii.eqb c "{" || Ascii.eqb c "^" || Ascii.eqb c "$"
      then OutsideFragment
      else parse p' (push (Chr c) cur) stack
  end.

(** [re.compile(pat, flags=re.IGNORECASE)] *)
Definition compile (pat : string) : compiled := parse pat empty_frame [].

(** The characters with a meaning of their own in a pattern. *)
Definition is_meta (c : ascii) : bool :=
  Ascii.eqb c "(" || Ascii.eqb c ")" || Ascii.eqb c "|" || Ascii.eqb c "*"
  || Ascii.eqb c "+" || Ascii.eqb c "?" || Ascii.eqb c "." || Ascii.eqb c "\"
  || Ascii.eqb c "[" || Ascii.eqb c "{" || Ascii.eqb c "^" || Ascii.eqb c "$".

(** A text without any of them. *)
Fixpoint plain (p : string) : bool :=
  match p with
  | EmptyString => true
  | String c p' => negb (is_meta c) && plain p'
  end.

(** The pattern that matches the text [p] itself. *)
Fixpoint literal (p : string) : regex :=
  match p with
  | EmptyString => Empty
  | String c p' => Cat (Chr c) (literal p')
  end.

(** [s] starts with [q], letter case apart. *)
Fixpoint starts_with (q s : string) : bool :=
  match q, s with
  | EmptyString, _ => true
  | String _ _, EmptyString => false
  | String c q', String a s' => Ascii.eqb (lower a) (lower c) && starts_with q' s'
  end.

(** [q] occurs in [s], letter case apart: [q.lower() in s.lower()]. *)
Fixpoint occurs_in (q s : string) : bool :=
  starts_with q s ||
  match s with
  | EmptyString => false
  | String _ s' => occurs_in q s'
  end.

End Regex.

(* ===================================================================== *)
(** ** Data frames *)
(* ===================================================================== *)

Inductive dtype := dt_int64 | dt_float64 | dt_bool | dt_object | dt_category.

Definition dtype_eqb (a b : dtype) : bool :=
  match a, b with
  | dt_int64, dt_int64 | dt_float64, dt_float64 | dt_bool, dt_bool
  | dt_object, dt_object | dt_category, dt_category => true
  | _, _ => false
  end.

Section Dashboard.

Context {N : Numeric} {F : Floating}.

(** The columns [pd.read_csv] (line 57) and [create_sample_data] (line 62)
    produce: integers without missing values, floats with [NaN] for a missing
    value, booleans, and [object] columns holding [str] values with [NaN] for
    a missing value.  [None] is [NaN]. *)
Inductive data :=
| Int64 (xs : list num)
| Float64 (xs : list (option flt))
| Bool (xs : list bool)
| Object (xs : list (option string)).

Record Series := { name : string; values : data }.

(** A frame is the list of its columns, in column order; every column has
    one cell per row. *)
Definition DataFrame := list Series.

Definition dtype_of (d : data) : dtype :=
  match d with
  | Int64 _ => dt_int64
  | Float64 _ => dt_float64
  | Bool _ => dt_bool
  | Object _ => dt_object
  end.

Definition size (d : data) : nat :=
  match d with
  | Int64 xs => List.length xs
  | Float64 xs => List.length xs
  | Bool xs => List.length xs
  | Object xs => List.length xs
  end.

Definition columns (df : DataFrame) : list string := map name df.

(** [len(df)] *)
Definition len (df : DataFrame) : nat :=
  match df with
  | [] => 0
  | s :: _ => size (values s)
  end.

(** [df[col]]: the first column of that name; [KeyError] when there is none. *)
Fixpoint getitem (df : DataFrame) (col : string) : result Series :=
  match df with
  | [] => Raise (KeyError col)
  | s :: df' => if String.eqb (name s) col then Ok s else getitem df' col
  end.

(** Boolean indexing [df[mask]]: the rows whose mask entry is [True]. *)
Fixpoint take {A} (mask : list bool) (xs : list A) : list A :=
  match mask, xs with
  | b :: mask', x :: xs' => if b then x :: take mask' xs' else take mask' xs'
  | _, _ => []
  end.

Definition take_data (mask : list bool) (d : data) : data :=
  match d with
  | Int64 xs => Int64 (take mask xs)
  | Float64 xs => Float64 (take mask xs)
  | Bool xs => Bool (take mask xs)
  | Object xs => Object (take mask xs)
  end.

Definition take_rows (mask : list bool) (df : DataFrame) : DataFrame :=
  map (fun s => {| name := name s; values := take_data mask (values s) |}) df.

(* ===================================================================== *)
(** ** Column classifier (lines 175-185) *)
(* ===================================================================== *)

(** [df.select_dtypes(include=...).columns.tolist()] *)
Definition select_dtypes (include : list dtype) (df : DataFrame) : list string :=
  columns (filter (fun s => existsb (dtype_eqb (dtype_of (values s))) include) df).

Definition numeric_cols (df : DataFrame) : list string :=
  select_dtypes [dt_int64; dt_float64] df.

Definition categorical_cols (df : DataFrame) : list string :=
  select_dtypes [dt_object; dt_category] df.

(** [pd.to_datetime(df[col], errors='raise')] is pandas' permissive date
    parser; the classifier only observes whether it raises. *)
Variable to_datetime_raises : Series -> bool.

(** Lines 179-185: the columns on which the parser does not raise. *)
Fixpoint date_cols (df : DataFrame) : list string :=
  match df with
  | [] => []
  | s :: df' =>
      if to_datetime_raises s then date_cols df' else name s :: date_cols df'
  end.

(* ===================================================================== *)
(** ** Aggregation engine (lines 244-265) *)
(* ===================================================================== *)

(** The operations offered by [agg_options] (lines 226-234). *)
Inductive agg := Sum | Mean | Median | Count | Min | Max | Std.

(** A group key: one value per grouping column. *)
Definition key := list string.

Definition key_compare : key -> key -> comparison := list_compare String.compare.

Definition key_eqb (a b : key) : bool :=
  match key_compare a b with Eq => true | _ => false end.

(** [dropna] *)
Fixpoint dropna {A} (xs : list (option A)) : list A :=
  match xs with
  | [] => []
  | Some x :: xs' => x :: dropna xs'
  | None :: xs' => dropna xs'
  end.

Fixpoint zip_with {A B C} (f : A -> B -> C) (l1 : list A) (l2 : list B) : list C :=
  match l1, l2 with
  | a :: l1', b :: l2' => f a b :: zip_with f l1' l2'
  | _, _ => []
  end.

Definition cons_key (k : option string) (ks : option key) : option key :=
  match k, ks with
  | Some a, Some l => Some (a :: l)
  | _, _ => None
  end.

(** The key tuple of every row; [None] when one of its components is missing. *)
Definition key_tuples (n : nat) (kcs : list (list (option string)))
  : list (option key) :=
  fold_right (zip_with cons_key) (repeat (Some []) n) kcs.

(** The values of a grouping column.  The multiselect of line 202 offers
    [categorical_cols] only; grouping by a column of another dtype is not
    modelled. *)
Definition key_column (df : DataFrame) (col : string)
  : result (list (option string)) :=
  s <- getitem df col ;;
  match values s with
  | Object xs => Ok xs
  | _ => Unmodelled
  end.

(** The cells of a numeric column. *)
Inductive numbers :=
| Ints (xs : list num)
| Floats (xs : list (option flt)).

(** The values of the value column.  The selectbox of line 215 offers
    [numeric_cols] only; reducing a column of another dtype is not modelled. *)
Definition value_column (df : DataFrame) (col : string) : result numbers :=
  s <- getitem df col ;;
  match values s with
  | Int64 xs => Ok (Ints xs)
  | Float64 xs => Ok (Floats xs)
  | _ => Unmodelled
  end.

Fixpoint has_dup (l : list string) : bool :=
  match l with
  | [] => false
  | x :: l' => mem x l' || has_dup l'
  end.

(** [df.groupby(cols)]: the key of every row.  Without a key pandas raises;
    a column listed twice is not modelled. *)
Definition groupby (df : DataFrame) (cols : list string)
  : result (list (option key)) :=
  match cols with
  | [] => Raise (ValueError "No group keys passed!")
  | _ :: _ =>
      if has_dup cols then Unmodelled
      else kcs <- mapM (key_column df) cols ;; Ok (key_tuples (len df) kcs)
  end.

(** The distinct values of a list, in the order they are first seen. *)
Definition unique {A} (eqb : A -> A -> bool) (l : list A) : list A :=
  fold_left (fun seen x => if existsb (eqb x) seen then seen else seen ++ [x]) l [].

Fixpoint insert {A} (cmp : A -> A -> comparison) (x : A) (l : list A) : list A :=
  match l with
  | [] => [x]
  | y :: l' =>
      match cmp x y with
      | Gt => y :: insert cmp x l'
      | _ => x :: l
      end
  end.

Definition sort {A} (cmp : A -> A -> comparison) (l : list A) : list A :=
  fold_right (insert cmp) [] l.

(** The groups of a [groupby] with the defaults [sort=True], [dropna=True]:
    rows with a missing key component belong to no group, and the groups come
    in ascending key order. *)
Definition group_keys (ks : list (option key)) : list key :=
  sort key_compare (unique key_eqb (dropna ks)).

Definition in_group (k : key) (o : option key) : bool :=
  match o with
  | Some k' => key_eqb k k'
  | None => false
  end.

(** The entries of [xs] on the rows of group [k]. *)
Definition group {A} (ks : list (option key)) (xs : list A) (k : key) : list A :=
  take (map (in_group k) ks) xs.

(** The cells of a numeric column on the rows of group [k]. *)
Definition group_numbers (ks : list (option key)) (v : numbers) (k : key)
  : numbers :=
  match v with
  | Ints xs => Ints (group ks xs k)
  | Floats xs => Floats (group ks xs k)
  end.

(** The values a statistic is computed from: the cells that are not
    missing. *)
Inductive sample :=
| IntSample (xs : list num)
| FloatSample (xs : list flt).

Definition non_missing (v : numbers) : sample :=
  match v with
  | Ints xs => IntSample xs
  | Floats xs => FloatSample (dropna xs)
  end.

(** The computed scalar of a result row: a number of rows, an int64 or a
    float64 value, or [NaN].  [mean], [median] and [std] are float64
    statistics: the cell keeps the operation and the values it is computed
    from, the computation itself is not modelled. *)
Inductive scalar :=
| Rows (n : nat)
| Value (x : num)
| FloatValue (x : flt)
| NaN
| Statistic (op : agg) (xs : sample).

(** The sum of int64 values. *)
Definition total (xs : list num) : num := fold_right num_add num_zero xs.

Definition least {A} (leb : A -> A -> bool) (x y : A) : A :=
  if leb x y then x else y.
Definition greatest {A} (leb : A -> A -> bool) (x y : A) : A :=
  if leb x y then y else x.

(** [SeriesGroupBy.agg(op)] on the values of one group; missing values are
    skipped.  The result of [sum], [min] and [max] has the dtype of the
    column. *)
Definition reduce (op : agg) (v : numbers) : scalar :=
  match v with
  | Ints xs =>
      match op with
      | Sum => Value (total xs)
      | Count => Rows (List.length xs)
      | Min => match xs with
               | [] => NaN
               | x :: l => Value (fold_left (least num_leb) l x)
               end
      | Max => match xs with
               | [] => NaN
               | x :: l => Value (fold_left (greatest num_leb) l x)
               end
      | Mean | Median | Std => Statistic op (IntSample xs)
      end
  | Floats xs =>
      match op with
      | Sum => FloatValue (flt_sum (dropna xs))
      | Count => Rows (List.length (dropna xs))
      | Min => match dropna xs with
               | [] => NaN
               | x :: l => FloatValue (fold_left (least flt_leb) l x)
               end
      | Max => match dropna xs with
               | [] => NaN
               | x :: l => FloatValue (fold_left (greatest flt_leb) l x)
               end
      | Mean | Median | Std => Statistic op (FloatSample (dropna xs))
      end
  end.

(** [result_df]: the names of its columns and its rows, each a group key and
    the computed value of column [Hasil]. *)
Record result_df := { res_columns : list string; res_rows : list (key * scalar) }.

(** Line 249: [df.groupby(group_by_cols).size().reset_index(name='Hasil')].
    [reset_index] cannot insert a grouping column that is itself named
    [Hasil]. *)
Definition groupby_size (df : DataFrame) (group_by_cols : list string)
  : result result_df :=
  ks <- groupby df group_by_cols ;;
  if mem "Hasil" group_by_cols
  then Raise (ValueError "cannot insert Hasil, already exists")
  else Ok {| res_columns := group_by_cols ++ ["Hasil"];
             res_rows := map (fun k => (k, Rows (List.length (group ks ks k))))
                             (group_keys ks) |}.

(** Lines 251-252:
    [df.groupby(group_by_cols)[value_col].agg(agg_type).reset_index()], its
    columns renamed to [group_by_cols + ['Hasil']]. *)
Definition groupby_agg (df : DataFrame) (group_by_cols : list string)
  (value_col : string) (agg_type : agg) : result result_df :=
  ks <- groupby df group_by_cols ;;
  vs <- value_column df value_col ;;
  Ok {| res_columns := group_by_cols ++ ["Hasil"];
        res_rows := map (fun k => (k, reduce agg_type (group_numbers ks vs k)))
                        (group_keys ks) |}.

(** Lines 248-252, the body of the [try]. *)
Definition compute (df : DataFrame) (group_by_cols : list string)
  (value_col : string) (agg_type : agg) : result result_df :=
  match agg_type with
  | Count => groupby_size df group_by_cols
  | _ => groupby_agg df group_by_cols value_col agg_type
  end.

Record config := { group_by : list string; value_col : string; agg_type : agg }.

(** The two keys of [st.session_state] the script uses. *)
Record session_state := {
  analysis_result : option result_df;
  analysis_config : option config
}.

Inductive message := success | error (e : exn) | warning.

(** Lines 244-265, pressing the button: the gate
    [if group_by_cols and value_col], the computation under [try] and the two
    assignments to the session state.  [value_col] is [None] when there is no
    numeric column (line 222). *)
Definition on_click (df : DataFrame) (group_by_cols : list string)
  (value_col : option string) (agg_type : agg) (st : session_state)
  : result (session_state * message) :=
  match group_by_cols, value_col with
  | _ :: _, Some v =>
      if truthy v then
        match compute df group_by_cols v agg_type with
        | Ok result_df =>
            Ok ({| analysis_result := Some result_df;
                   analysis_config := Some {| group_by := group_by_cols;
                                              value_col := v;
                                              agg_type := agg_type |} |},
                success)
        | Raise e => Ok (st, error e)
        | Unmodelled => Unmodelled
        end
      else Ok (st, warning)
  | _, _ => Ok (st, warning)
  end.

(* ===================================================================== *)
(** ** Filters and search (lines 289-309) *)
(* ===================================================================== *)

(** [astype(str)]: every cell as text.  A missing value becomes the text
    [nan]; it is no longer missing afterwards. *)
Definition astype_str (d : data) : list string :=
  match d with
  | Int64 xs => map num_str xs
  | Float64 xs => map (fun o => match o with Some x => flt_str x | None => "nan" end) xs
  | Bool xs => map (fun b : bool => if b then "True" else "False") xs
  | Object xs => map (fun o => match o with Some s => s | None => "nan" end) xs
  end.

(** Lines 290-293.  [filters] is the dictionary built at lines 276-287, in
    insertion order: a selection per categorical column. *)
Fixpoint apply_filters (df_filtered : DataFrame)
  (filters : list (string * list string)) : result DataFrame :=
  match filters with
  | [] => Ok df_filtered
  | (col, filter_val) :: filters' =>
      if negb (mem "Semua" filter_val) && negb (Nat.eqb (List.length filter_val) 0)
      then
        s <- getitem df_filtered col ;;
        apply_filters
          (take_rows (map (fun x => mem x filter_val) (astype_str (values s)))
                     df_filtered)
          filters'
      else apply_filters df_filtered filters'
  end.

(** [x.str.contains(search, case=False, na=False)] on a column of texts: the
    pattern is compiled, then searched in every value.  After [astype(str)]
    no value is missing, so [na=False] never applies.  Searching in a text
    with a character outside ASCII is not modelled. *)
Definition str_contains (pat : string) (xs : list string) : result (list bool) :=
  match Regex.compile pat with
  | Regex.Pattern r =>
      if forallb Regex.ascii_text xs then Ok (map (Regex.search r) xs)
      else Unmodelled
  | Regex.Error msg => Raise (ReError msg)
  | Regex.OutsideFragment => Unmodelled
  end.

(** [.any(axis=1)]: per row, whether some column is [True]. *)
Definition any_axis1 (n : nat) (cols : list (list bool)) : list bool :=
  fold_right (zip_with orb) (repeat false n) cols.

(** Line 305.  On a frame without rows [DataFrame.apply] does not hand the
    columns to the function: it returns a copy of the frame, nothing is
    compiled, and the mask is empty. *)
Definition search_mask (df_filtered : DataFrame) (search : string)
  : result (list bool) :=
  if Nat.eqb (len df_filtered) 0 then Ok []
  else
    cols <- mapM (fun s => str_contains search (astype_str (values s)))
                 df_filtered ;;
    Ok (any_axis1 (len df_filtered) cols).

(** Lines 304-309. *)
Definition search_rows (df_filtered : DataFrame) (search : string)
  : result DataFrame :=
  if truthy search then
    mask <- search_mask df_filtered search ;;
    Ok (take_rows mask df_filtered)
  else Ok df_filtered.

(** Lines 289-309: from the selected columns to [df_display]. *)
Definition display (df : DataFrame) (filters : list (string * list string))
  (search : string) : result DataFrame :=
  df_filtered <- apply_filters df filters ;;
  search_rows df_filtered search.

(* ===================================================================== *)
(** ** Automatic charts and summary tables (lines 411-497) *)
(* ===================================================================== *)

(** How many times [v] occurs in [vs]. *)
Definition occurrences (v : string) (vs : list string) : nat :=
  List.length (filter (String.eqb v) vs).

Definition highest (ns : list nat) : nat := fold_right Nat.max 0 ns.

(** [Series.mode()], with its default [dropna=True]: the non-missing values
    of the highest frequency, sorted in ascending order. *)
Definition mode (xs : list (option string)) : list string :=
  let vs := dropna xs in
  let uniques := unique String.eqb vs in
  let top := highest (map (fun v => occurrences v vs) uniques) in
  sort String.compare
       (filter (fun v => Nat.eqb (occurrences v vs) top) uniques).

(** Line 493: [mode()[0] if len(mode()) > 0 else '-']. *)
Definition terbanyak (xs : list (option string)) : string :=
  match mode xs with
  | [] => "-"
  | m :: _ => m
  end.

(** [Series.nunique()] *)
Definition nunique (xs : list (option string)) : nat :=
  List.length (unique String.eqb (dropna xs)).

(** [Series.sort_values(ascending=False)] on a table of counts: the highest
    count first.  The order it leaves among equal counts is that of numpy's
    default sort, which the script does not choose. *)
Variable sort_values : list (string * nat) -> list (string * nat).

(** [Series.value_counts()]: the count of every non-missing value. *)
Definition value_counts (xs : list (option string)) : list (string * nat) :=
  let vs := dropna xs in
  sort_values (map (fun v => (v, occurrences v vs)) (unique String.eqb vs)).

(** What is handed to the chart constructors of plotly. *)
Inductive chart :=
| pie (names : string) (data_frame : list (string * nat))
| histogram (data_frame : DataFrame) (x : string) (nbins : nat)
| box (data_frame : DataFrame) (y : string).

(** A row of [cat_info] (lines 490-494). *)
Record info := { Kolom : string; Jumlah_Unik : nat; Terbanyak : string }.

(** The three tabs.  [statistik] is what [describe()] summarises: per numeric
    column its non-missing values (the float64 statistics themselves are not
    modelled). *)
Record tabs := {
  grafik_kategori : list chart;
  grafik_angka : list chart;
  statistik : list (string * sample);
  cat_info : list info
}.

(** [df_display[col]] for a categorical column. *)
Definition object_values (df_display : DataFrame) (col : string)
  : result (list (option string)) :=
  s <- getitem df_display col ;;
  match values s with
  | Object xs => Ok xs
  | _ => Unmodelled
  end.

(** Lines 425-437. *)
Definition pie_chart (df_display : DataFrame) (col : string) : result chart :=
  xs <- object_values df_display col ;;
  Ok (pie col (firstn 10 (value_counts xs))).

(** Lines 445-469. *)
Definition numeric_charts (df_display : DataFrame) (col : string) : list chart :=
  [histogram df_display col 30; box df_display col].

(** Line 481: [df_display[numeric_cols].describe()]. *)
Definition describe (df_display : DataFrame) (cols : list string)
  : result (list (string * sample)) :=
  mapM (fun col => vs <- value_column df_display col ;; Ok (col, non_missing vs))
       cols.

(** Lines 489-494. *)
Definition cat_row (df_display : DataFrame) (col : string) : result info :=
  xs <- object_values df_display col ;;
  Ok {| Kolom := col; Jumlah_Unik := nunique xs; Terbanyak := terbanyak xs |}.

(** [st.columns(spec)] for a number of columns: streamlit refuses a number
    that is not positive. *)
Definition st_columns (spec : nat) : result nat :=
  match spec with
  | 0 => Raise StreamlitAPIException
  | S _ => Ok spec
  end.

(** Lines 411-497: the simple mode of one run of the script, from the selected
    columns [df], the filter selections and the search text.  The run comes
    through line 277 first, [st.columns(min(3, len(categorical_cols)))], the
    layout of the filter widgets. *)
Definition simple_mode (df : DataFrame) (filters : list (string * list string))
  (search : string) : result tabs :=
  let numeric_cols := numeric_cols df in
  let categorical_cols := categorical_cols df in
  filter_cols <- st_columns (Nat.min 3 (List.length categorical_cols)) ;;
  df_display <- display df filters search ;;
  let num_charts := Nat.min 4 (List.length categorical_cols) in
  tab1 <- mapM (pie_chart df_display) (firstn num_charts categorical_cols) ;;
  let tab2 := flat_map (numeric_charts df_display) (firstn 3 numeric_cols) in
  stats <- describe df_display numeric_cols ;;
  rows <- mapM (cat_row df_display) categorical_cols ;;
  Ok {| grafik_kategori := tab1; grafik_angka := tab2;
        statistik := stats; cat_info := rows |}.

End Dashboard.

(* ===================================================================== *)
(** ** Notions used in the statements *)
(* ===================================================================== *)

(** The orders induced by a comparison function. *)
Definition le_by {A} (cmp : A -> A -> comparison) (x y : A) : Prop := cmp x y <> Gt.
Definition lt_by {A} (cmp : A -> A -> comparison) (x y : A) : Prop := cmp x y = Lt.

(** The sum of a list in a monoid. *)
Definition msum {M} (op : M -> M -> M) (e : M) (l : list M) : M := fold_right op e l.

Definition present {A} (o : option A) : bool :=
  match o with Some _ => true | None => false end.

Section Reading.

Context {N : Numeric} {F : Floating}.

(** Every column has one cell per row. *)
Definition rectangular (df : DataFrame) : Prop :=
  forall s, In s df -> size (values s) = len df.

(** The number of cells of a numeric column. *)
Definition cells (v : numbers) : nat :=
  match v with
  | Ints xs => List.length xs
  | Floats xs => List.length xs
  end.

Definition result_keys (r : result_df) : list key := map fst (res_rows r).

(** The sum of column [Hasil] of a result of [sum] on an int64 column. *)
Definition hasil_total (r : result_df) : num :=
  total (map (fun row => match snd row with Value x => x | _ => num_zero end)
             (res_rows r)).

(** The sum of column [Hasil] of a result of [count]. *)
Definition hasil_rows (r : result_df) : nat :=
  list_sum (map (fun row => match snd row with Rows n => n | _ => 0 end)
                (res_rows r)).

(** The session state after a successful aggregation (lines 255-260). *)
Definition stored (r : result_df) (group_by_cols : list string) (v : string)
  (op : agg) : session_state :=
  {| analysis_result := Some r;
     analysis_config := Some {| group_by := group_by_cols; value_col := v;
                                agg_type := op |} |}.

(** The names and dtypes of the columns, in column order. *)
Definition shape (df : DataFrame) : list (string * dtype) :=
  map (fun s => (name s, dtype_of (values s))) df.

(** The spec's first-seen order of the group keys: every distinct key at the
    place of its first row. *)
Definition first_seen_keys (ks : list (option key)) : list key :=
  unique key_eqb (dropna ks).

(** The spec's most frequent value with its tie-break: the first value, in
    row order, whose frequency is the highest. *)
Definition first_encountered_mode (xs : list (option string)) : option string :=
  let vs := dropna xs in
  let top := highest (map (fun v => occurrences v vs) vs) in
  find (fun v => Nat.eqb (occurrences v vs) top) vs.

(** The tabs [t] hold the automatic charts and tables of the frame
    [df_display], for the column lists of lines 175-176: a pie of the ten
    first value counts for each of the four first categorical columns, a
    histogram and a box plot of the frame for each of the three first numeric
    columns, the described values of every numeric column, and the number of
    distinct values and the most frequent value of every categorical column. *)
Definition drawn_from (sort_values : list (string * nat) -> list (string * nat))
  (numeric_cols categorical_cols : list string) (df_display : DataFrame)
  (t : tabs) : Prop :=
  Forall2 (fun col c =>
             exists xs, object_values df_display col = Ok xs /\
               c = pie col (firstn 10 (value_counts sort_values xs)))
          (firstn (Nat.min 4 (List.length categorical_cols)) categorical_cols)
          (grafik_kategori t) /\
  grafik_angka t
  = flat_map (fun col => [histogram df_display col 30; box df_display col])
             (firstn 3 numeric_cols) /\
  Forall2 (fun col row =>
             exists vs, value_column df_display col = Ok vs /\
               row = (col, non_missing vs))
          numeric_cols (statistik t) /\
  Forall2 (fun col row =>
             exists xs, object_values df_display col = Ok xs /\
               row = {| Kolom := col; Jumlah_Unik := nunique xs;
                        Terbanyak := terbanyak xs |})
          categorical_cols (cat_info t).

End Reading.

(* ===================================================================== *)
(** ** Example datasets *)
(* ===================================================================== *)

(** The dataset of the end-to-end scenarios: three rows, a region and the
    sales of the row. *)
Definition region_sales : @DataFrame int64 only_zero :=
  [ {| name := "Region"; values := Object [Some "A"; Some "A"; Some "B"] |};
    {| name := "Sales"; values := Int64 [i64 10; i64 20; i64 30] |} ].


(** Region [B] comes first. *)
Definition region_reversed : @DataFrame int64 only_zero :=
  [ {| name := "Region"; values := Object [Some "B"; Some "A"] |};
    {| name := "Sales"; values := Int64 [i64 1; i64 2] |} ].

(** The region of the second row is missing. *)
Definition region_missing : @DataFrame int64 only_zero :=
  [ {| name := "Region"; values := Object [Some "A"; None] |};
    {| name := "Sales"; values := Int64 [i64 10; i64 20] |} ].

(** No numeric column: the selectbox of line 215 is not shown and
    [value_col] is [None]. *)
Definition region_only : @DataFrame int64 only_zero :=
  [ {| name := "Region"; values := Object [Some "A"; Some "A"; Some "B"] |} ].

(** A CSV column of [True]/[False] is read with dtype [bool]. *)
Definition region_flag : @DataFrame int64 only_zero :=
  [ {| name := "Region"; values := Object [Some "A"; Some "B"] |};
    {| name := "Aktif"; values := Bool [true; false] |} ].

(** A categorical column that is itself named [Hasil]. *)
Definition hasil_sales : @DataFrame int64 only_zero :=
  [ {| name := "Hasil"; values := Object [Some "lulus"; Some "gagal"] |};
    {| name := "Sales"; values := Int64 [i64 1; i64 2] |} ].

(** The name of the second row is missing. *)
Definition names : @DataFrame int64 only_zero :=
  [ {| name := "Nama"; values := Object [Some "Budi"; None] |} ].

Definition no_result : @session_state int64 only_zero :=
  {| analysis_result := None; analysis_config := None |}.

(** The state after counting the rows of [region_sales] by region. *)
Definition previous_result : @session_state int64 only_zero :=
  {| analysis_result :=
       Some {| res_columns := ["Region"; "Hasil"];
               res_rows := [(["A"], Rows 2); (["B"], Rows 1)] |};
     analysis_config :=
       Some {| group_by := ["Region"]; value_col := "Sales"; agg_type := Count |} |}.

(** The state after summing the sales of [hasil_sales] by its column
    [Hasil]: the result has two columns of that name. *)
Definition hasil_result : @session_state int64 only_zero :=
  {| analysis_result :=
       Some {| res_columns := ["Hasil"; "Hasil"];
               res_rows := [(["gagal"], Value (i64 2)); (["lulus"], Value (i64 1))] |};
     analysis_config :=
       Some {| group_by := ["Hasil"]; value_col := "Sales"; agg_type := Sum |} |}.

(** A parser that accepts no column, for the examples. *)
Definition never_a_date : @Series int64 only_zero -> bool := fun _ => true.

(* ===================================================================== *)
(** ** Names of the operations (lines 79-91 and 226-241) *)
(* ===================================================================== *)

(** The keys of [agg_options], in the order the selectbox lists them. *)
Definition agg_options : list agg := [Sum; Mean; Median; Count; Min; Max; Std].

(** The key of an operation, as the script spells it. *)
Definition agg_key (op : agg) : string :=
  match op with
  | Sum => "sum"
  | Mean => "mean"
  | Median => "median"
  | Count => "count"
  | Min => "min"
  | Max => "max"
  | Std => "std"
  end.

(** The dictionary [mapping] of [get_aggregation_name] (lines 81-90). *)
Definition mapping : list (string * string) :=
  [ ("count", "Hitung Jumlah Baris");
    ("sum", "Jumlahkan (Total)");
    ("mean", "Rata-rata");
    ("median", "Nilai Tengah");
    ("min", "Nilai Terkecil");
    ("max", "Nilai Terbesar");
    ("std", "Standar Deviasi");
    ("nunique", "Hitung Nilai Unik") ].

(** [d.get(key, default)] *)
Fixpoint dict_get (d : list (string * string)) (key default : string) : string :=
  match d with
  | [] => default
  | (k, v) :: d' => if String.eqb k key then v else dict_get d' key default
  end.

(** Line 91: [mapping.get(agg_type, agg_type)]. *)
Definition get_aggregation_name (agg_type : string) : string :=
  dict_get mapping agg_type agg_type.

(* ===================================================================== *)
(** ** Selections (lines 134-156, 199-241 and 276-287) *)
(* ===================================================================== *)

(** Line 205: the default of the grouping multiselect. *)
Definition default_group_by (categorical_cols : list string) : list string :=
  match categorical_cols with
  | c :: _ => [c]
  | [] => []
  end.

(** Lines 214-222: the selectbox starts on its first option; without a
    numeric column it is not shown and [value_col] is [None]. *)
Definition default_value_col (numeric_cols : list string) : option string :=
  hd_error numeric_cols.

(** Line 236: the selectbox of the operations starts on its first key. *)
Definition default_agg_type : agg := hd Sum agg_options.

(** Line 281: the options of the filter of a categorical column,
    [['Semua'] + sorted(df[col].dropna().astype(str).unique().tolist())]. *)
Definition unique_vals (xs : list (option string)) : list string :=
  "Semua" :: sort String.compare (unique String.eqb (dropna xs)).

(** Lines 279-287 before any choice of the user: every filter of the six
    first categorical columns is on [Semua]. *)
Definition default_filters (categorical_cols : list string)
  : list (string * list string) :=
  map (fun col => (col, ["Semua"])) (firstn 6 categorical_cols).

(** Line 292: [if 'Semua' not in filter_val and filter_val]. *)
Definition active (filter_val : list string) : bool :=
  negb (mem "Semua" filter_val) && negb (Nat.eqb (List.length filter_val) 0).

Section Selections.

Context {N : Numeric} {F : Floating}.

(** Line 156: [df_original[selected_columns]]. *)
Definition select_columns (df_original : DataFrame) (selected_columns : list string)
  : result DataFrame :=
  mapM (getitem df_original) selected_columns.

(** The rows one filter lets through, as a mask over the rows of [df]; a
    filter that is not active lets every row through. *)
Definition column_mask (df : DataFrame) (f : string * list string) : list bool :=
  if active (snd f) then
    match getitem df (fst f) with
    | Ok s => map (fun x => mem x (snd f)) (astype_str (values s))
    | _ => []
    end
  else repeat true (len df).

(** The rows every filter lets through. *)
Definition filters_mask (df : DataFrame) (filters : list (string * list string))
  : list bool :=
  fold_right (fun f acc => zip_with andb (column_mask df f) acc)
             (repeat true (len df)) filters.

(** The mask that selects, among the rows [m1] selects, those [m2] selects. *)
Fixpoint compose (m1 m2 : list bool) : list bool :=
  match m1 with
  | [] => []
  | false :: m1' => false :: compose m1' m2
  | true :: m1' =>
      match m2 with
      | [] => []
      | b :: m2' => b :: compose m1' m2'
      end
  end.

(** [s.lower()], on ASCII letters. *)
Fixpoint lowercase (s : string) : string :=
  match s with
  | EmptyString => EmptyString
  | String c s' => String (Regex.lower c) (lowercase s')
  end.

(** The dataset with every text cell in lower case. *)
Definition lowercase_cells (df : DataFrame) : DataFrame :=
  map (fun s =>
         {| name := name s;
            values := match values s with
                      | Object xs => Object (map (option_map lowercase) xs)
                      | d => d
                      end |}) df.

(* --------------------------------------------------------------------- *)
(** *** The result panel (lines 328-397) *)

Inductive analysis_mode := simple | advanced.

(** What is handed to the chart constructors of plotly for a result. *)
Inductive plot :=
| px_bar (x y : string) (color : option string) (title : string)
         (barmode : option string)
| px_pie (values names title : string)
| px_sunburst (path : list string) (values title : string).

(** The panel of a run: not shown, drawn, or stopped by an exception, of the
    script's own indexing or of [st.dataframe], which refuses a table with
    two columns of the same name. *)
Inductive panel :=
| Hidden
| Drawn (table : result_df) (figs : list plot)
| MissingKey (key : string)
| DuplicateColumns
| IndexError.

(** Lines 328-397. *)
Definition result_panel (mode : analysis_mode) (st : session_state) : panel :=
  match analysis_result st, mode with
  | Some result_df, advanced =>
      match analysis_config st with
      | None => MissingKey "analysis_config"
      | Some config =>
          let label := get_aggregation_name (agg_key (agg_type config)) in
          let title := (label ++ " - " ++ value_col config)%string in
          if has_dup (res_columns result_df) then DuplicateColumns
          else if Nat.eqb (List.length (group_by config)) 1 then
            match nth_error (group_by config) 0 with
            | None => IndexError
            | Some g =>
                Drawn result_df
                  [ px_bar g "Hasil" (Some "Hasil") title None;
                    px_pie "Hasil" g ("Proporsi " ++ label)%string ]
            end
          else
            match nth_error (group_by config) 0 with
            | None => IndexError
            | Some g =>
                Drawn result_df
                  [ px_bar g "Hasil"
                      (if Nat.ltb 1 (List.length (group_by config))
                       then nth_error (group_by config) 1 else None)
                      title (Some "group");
                    px_sunburst (group_by config) "Hasil"
                      ("Hierarki " ++ label)%string ]
            end
      end
  | _, _ => Hidden
  end.

(** The session states a session can be in: it starts empty, and changes
    by pressing the button, on whatever dataset and selections. *)
Inductive reachable : session_state -> Prop :=
| reach_start : reachable {| analysis_result := None; analysis_config := None |}
| reach_click (st st' : session_state) (df : DataFrame) (cols : list string)
    (v : option string) (op : agg) (m : message) :
    reachable st -> on_click df cols v op st = Ok (st', m) -> reachable st'.

(** The names of the columns a figure reads. *)
Definition plot_columns (p : plot) : list string :=
  match p with
  | px_bar x y color _ _ =>
      x :: y :: match color with Some c => [c] | None => [] end
  | px_pie values names _ => [values; names]
  | px_sunburst path values _ => values :: path
  end.

(** Every row of [df] is let through by the filter [f]. *)
Definition passes (df : DataFrame) (f : string * list string) : Prop :=
  active (snd f) = true ->
  exists s, getitem df (fst f) = Ok s /\
    Forall (fun x => mem x (snd f) = true) (astype_str (values s)).

(** The rows whose key is complete: no grouping column has a missing value
    there. *)
Definition complete_rows (n : nat) (kcs : list (list (option string))) : list bool :=
  fold_right (zip_with andb) (repeat true n) (map (map present) kcs).

Definition count_true (mask : list bool) : nat :=
  List.length (filter (fun b : bool => b) mask).

(** A stored result and its configuration belong together: both are absent,
    or the result has the grouping columns of the configuration followed by
    [Hasil], one key component per grouping column in every row, and the
    configuration names at least one grouping column and a value column. *)
Definition coherent (st : session_state) : Prop :=
  match analysis_result st, analysis_config st with
  | None, None => True
  | Some r, Some c =>
      group_by c <> [] /\
      truthy (value_col c) = true /\
      res_columns r = group_by c ++ ["Hasil"] /\
      Forall (fun row => List.length (fst row) = List.length (group_by c))
             (res_rows r)
  | _, _ => False
  end.

End Selections.

(* ===================================================================== *)
(** * Properties *)
(* ===================================================================== *)

(** ** Outcomes *)

Lemma bind_Ok {A B} (m : result A) (k : A -> result B) (b : B) :
  bind m k = Ok b -> exists a, m = Ok a /\ k a = Ok b.
Proof.
  destruct m as [a | e | ]; simpl; intros H; try discriminate.
  exists a; split; [reflexivity | exact H].
Qed.

(** ** The orders on texts and on keys *)

Lemma str_compare_eq (a b : string) : String.compare a b = Eq <-> a = b.
Proof. apply String_as_OT.cmp_eq. Qed.

Lemma str_compare_opp (a b : string) :
  String.compare b a = CompOpp (String.compare a b).
Proof. apply String.compare_antisym. Qed.

Lemma str_compare_trans (a b c : string) (o : comparison) :
  String.compare a b = o -> String.compare b c = o -> String.compare a c = o.
Proof.
  assert (Hlt : forall x y z, String.compare x y = Lt -> String.compare y z = Lt ->
                              String.compare x z = Lt).
  { intros x y z Hxy Hyz. apply String_as_OT.cmp_lt.
    apply String_as_OT.lt_trans with y; apply String_as_OT.cmp_lt; assumption. }
  destruct o; intros Hab Hbc.
  - apply str_compare_eq in Hab, Hbc. subst. now apply str_compare_eq.
  - eauto.
  - rewrite str_compare_opp in Hab, Hbc |- *.
    destruct (String.compare b a) eqn:Hba; try discriminate.
    destruct (String.compare c b) eqn:Hcb; try discriminate.
    now rewrite (Hlt c b a Hcb Hba).
Qed.

Lemma key_compare_eq (a b : key) : key_compare a b = Eq <-> a = b.
Proof. apply list_compare_refl, str_compare_eq. Qed.

Lemma key_compare_opp (a b : key) :
  key_compare b a = CompOpp (key_compare a b).
Proof. apply list_compare_antisym; [apply str_compare_eq | apply str_compare_opp]. Qed.

Lemma key_compare_trans (a b c : key) (o : comparison) :
  key_compare a b = o -> key_compare b c = o -> key_compare a c = o.
Proof.
  apply list_compare_trans.
  - apply str_compare_eq.
  - apply str_compare_trans.
  - apply str_compare_opp.
Qed.

Lemma key_eqb_eq (a b : key) : key_eqb a b = true <-> a = b.
Proof.
  unfold key_eqb. rewrite <- key_compare_eq.
  destruct (key_compare a b); split; congruence.
Qed.

(** ** Sorting by insertion *)

Section Sorting.

Variable A : Type.
Variable cmp : A -> A -> comparison.
Hypothesis cmp_eq : forall x y, cmp x y = Eq <-> x = y.
Hypothesis cmp_opp : forall x y, cmp y x = CompOpp (cmp x y).
Hypothesis cmp_trans : forall x y z o, cmp x y = o -> cmp y z = o -> cmp x z = o.

Local Abbreviation le := (le_by cmp).
Local Abbreviation lt := (lt_by cmp).

Lemma le_by_trans x y z : le x y -> le y z -> le x z.
Proof.
  unfold le_by. intros Hxy Hyz.
  destruct (cmp x y) eqn:E1; try congruence.
  - apply cmp_eq in E1. now subst.
  - destruct (cmp y z) eqn:E2; try congruence.
    + apply cmp_eq in E2. subst. congruence.
    + rewrite (cmp_trans _ _ _ _ E1 E2). discriminate.
Qed.

Lemma insert_perm x l : Permutation (insert cmp x l) (x :: l).
Proof.
  induction l as [| y l IH]; simpl; [reflexivity |].
  destruct (cmp x y); try reflexivity.
  rewrite IH. apply perm_swap.
Qed.

Lemma sort_perm l : Permutation (sort cmp l) l.
Proof.
  induction l as [| x l IH]; simpl; [reflexivity |].
  rewrite insert_perm. now constructor.
Qed.

Lemma insert_sorted x l :
  StronglySorted le l -> StronglySorted le (insert cmp x l).
Proof.
  induction 1 as [| y l Hs IH Hy]; simpl.
  - repeat constructor.
  - destruct (cmp x y) eqn:E.
    + constructor; [now constructor |].
      constructor; [unfold le_by; congruence |].
      eapply Forall_impl; [| exact Hy].
      intros z Hz. apply le_by_trans with y; [unfold le_by; congruence | exact Hz].
    + constructor; [now constructor |].
      constructor; [unfold le_by; congruence |].
      eapply Forall_impl; [| exact Hy].
      intros z Hz. apply le_by_trans with y; [unfold le_by; congruence | exact Hz].
    + constructor; [exact IH |].
      rewrite Forall_forall. intros z Hz.
      apply (Permutation_in _ (insert_perm x l)) in Hz.
      destruct Hz as [<- | Hz].
      * unfold le_by. rewrite cmp_opp, E. discriminate.
      * rewrite Forall_forall in Hy. now apply Hy.
Qed.

Lemma sort_sorted l : StronglySorted le (sort cmp l).
Proof.
  induction l as [| x l IH]; simpl; [constructor | now apply insert_sorted].
Qed.

(** Without duplicates the order is strict. *)
Lemma sorted_strict l :
  NoDup l -> StronglySorted le l -> StronglySorted lt l.
Proof.
  induction 2 as [| y l Hs IH Hy]; [constructor |].
  inversion H; subst.
  constructor; [now apply IH |].
  rewrite Forall_forall in *. intros z Hz.
  specialize (Hy z Hz). unfold le_by, lt_by in *.
  destruct (cmp y z) eqn:E; try congruence.
  apply cmp_eq in E. subst. contradiction.
Qed.

Lemma sort_strict l : NoDup l -> StronglySorted lt (sort cmp l).
Proof.
  intros Hl. apply sorted_strict; [| apply sort_sorted].
  apply (Permutation_NoDup (Permutation_sym (sort_perm l)) Hl).
Qed.

(** The head of a sorted list is its least element. *)
Lemma sort_head_least l m rest :
  sort cmp l = m :: rest -> forall v, In v l -> le m v.
Proof.
  intros E v Hv.
  pose proof (sort_sorted l) as Hs. rewrite E in Hs.
  apply (Permutation_in _ (Permutation_sym (sort_perm l))) in Hv.
  rewrite E in Hv. inversion Hs as [| ? ? _ Hall]; subst.
  destruct Hv as [<- | Hv].
  - unfold le_by. now rewrite (proj2 (cmp_eq m m) eq_refl).
  - rewrite Forall_forall in Hall. now apply Hall.
Qed.

End Sorting.

(** ** Distinct values in first-seen order *)

Section Unique.

Variable A : Type.
Variable eqb : A -> A -> bool.
Hypothesis eqb_eq : forall x y, eqb x y = true <-> x = y.

Lemma existsb_eqb x l : existsb (eqb x) l = true <-> In x l.
Proof.
  rewrite existsb_exists. split.
  - intros [y [Hy E]]. apply eqb_eq in E. now subst.
  - intros H. exists x. split; [exact H | now apply eqb_eq].
Qed.

Lemma unique_from seen l :
  let step := fun seen x => if existsb (eqb x) seen then seen else seen ++ [x] in
  NoDup seen ->
  NoDup (fold_left step l seen) /\
  forall x, In x (fold_left step l seen) <-> In x seen \/ In x l.
Proof.
  intros step. revert seen.
  induction l as [| a l IH]; intros seen Hseen; simpl.
  - split; [exact Hseen | intros x; tauto].
  - assert (Hstep : NoDup (step seen a) /\
                    forall x, In x (step seen a) <-> In x seen \/ x = a).
    { unfold step. destruct (existsb (eqb a) seen) eqn:E.
      - apply existsb_eqb in E. split; [exact Hseen |].
        intros x. split; [tauto | intros [H | ->]; assumption].
      - split.
        + apply NoDup_app; [exact Hseen | repeat constructor; intros [] | ].
          intros x Hx [<- | []].
          apply existsb_eqb in Hx. congruence.
        + intros x. rewrite in_app_iff. simpl. intuition congruence. }
    destruct Hstep as [Hnd Hin].
    destruct (IH _ Hnd) as [IH1 IH2].
    split; [exact IH1 |].
    intros x. rewrite IH2, Hin. intuition congruence.
Qed.

Lemma unique_NoDup l : NoDup (unique eqb l).
Proof. apply (unique_from [] l). constructor. Qed.

Lemma unique_In l x : In x (unique eqb l) <-> In x l.
Proof.
  unfold unique. rewrite (proj2 (unique_from [] l (NoDup_nil A))).
  simpl. tauto.
Qed.

End Unique.

(** ** Sums over the groups of a [groupby] *)

Lemma dropna_In {A} (l : list (option A)) (x : A) :
  In x (dropna l) <-> In (Some x) l.
Proof.
  induction l as [| [a |] l IH]; simpl.
  - tauto.
  - rewrite IH. split; intros [H | H]; auto; left; congruence.
  - rewrite IH. split; [auto | intros [H | H]; [discriminate | exact H]].
Qed.

Lemma group_keys_NoDup (ks : list (option key)) : NoDup (group_keys ks).
Proof.
  unfold group_keys.
  apply (Permutation_NoDup (Permutation_sym (sort_perm _ _ _))).
  apply unique_NoDup, key_eqb_eq.
Qed.

Lemma group_keys_In (ks : list (option key)) (k : key) :
  In k (group_keys ks) <-> In (Some k) ks.
Proof.
  unfold group_keys. rewrite <- dropna_In.
  rewrite <- (unique_In _ key_eqb key_eqb_eq (dropna ks) k).
  split; apply Permutation_in;
    [apply sort_perm | apply Permutation_sym, sort_perm].
Qed.

Lemma group_keys_sorted (ks : list (option key)) :
  StronglySorted (lt_by key_compare) (group_keys ks).
Proof.
  apply sort_strict.
  - apply key_compare_eq.
  - apply key_compare_opp.
  - apply key_compare_trans.
  - apply unique_NoDup, key_eqb_eq.
Qed.

Section GroupSums.

Variables (M : Type) (op : M -> M -> M) (e : M).
Hypothesis op_assoc : forall a b c, op a (op b c) = op (op a b) c.
Hypothesis op_comm : forall a b, op a b = op b a.
Hypothesis op_e_l : forall a, op e a = a.

Local Abbreviation sum_of := (msum op e).

Lemma msum_unit (K : list key) : sum_of (map (fun _ => e) K) = e.
Proof.
  induction K as [| k K IH]; simpl; [reflexivity |].
  rewrite IH. apply op_e_l.
Qed.

(** A contribution credited to one key of a duplicate-free list adds once. *)
Lemma msum_credit (a : M) (g : key -> M) (k0 : key) (K : list key) :
  NoDup K -> In k0 K ->
  sum_of (map (fun k => if key_eqb k k0 then op a (g k) else g k) K)
  = op a (sum_of (map g K)).
Proof.
  induction 1 as [| k K Hk Hnd IH]; intros Hin; [destruct Hin |].
  simpl. destruct (key_eqb k k0) eqn:E.
  - apply key_eqb_eq in E. subst k0.
    rewrite <- op_assoc. do 2 f_equal. unfold msum. f_equal.
    apply map_ext_in. intros k' Hk'.
    destruct (key_eqb k' k) eqn:E'; [| reflexivity].
    apply key_eqb_eq in E'. subst. contradiction.
  - destruct Hin as [-> | Hin].
    + rewrite (proj2 (key_eqb_eq k0 k0) eq_refl) in E. discriminate.
    + rewrite (IH Hin).
      rewrite !op_assoc. f_equal. apply op_comm.
Qed.

(** Summing group by group is summing over the rows that have a key. *)
Lemma msum_groups {X} (f : X -> M) (K : list key) (ks : list (option key))
  (xs : list X) :
  NoDup K -> (forall k, In (Some k) ks -> In k K) ->
  sum_of (map (fun k => sum_of (map f (group ks xs k))) K)
  = sum_of (map f (take (map present ks) xs)).
Proof.
  intros Hnd. revert xs.
  induction ks as [| o ks IH]; intros xs Hcov.
  - unfold group. simpl. apply msum_unit.
  - destruct xs as [| x xs].
    + unfold group. simpl. apply msum_unit.
    + assert (Hcov' : forall k, In (Some k) ks -> In k K)
        by (intros k Hk; apply Hcov; now right).
      specialize (IH xs Hcov').
      destruct o as [k0 |].
      * unfold group in *. simpl.
        rewrite <- IH.
        rewrite <- (msum_credit (f x) _ k0 K Hnd (Hcov k0 (or_introl eq_refl))).
        f_equal. apply map_ext. intros k.
        destruct (key_eqb k k0); reflexivity.
      * unfold group in *. simpl. exact IH.
Qed.

End GroupSums.

(** ** The values of the groups of a [groupby] *)

Lemma concat_map_nil {A B} (K : list A) : List.concat (map (fun _ => @nil B) K) = [].
Proof. induction K as [| k K IH]; simpl; [reflexivity | exact IH]. Qed.

(** A value credited to one key of a duplicate-free list is there once. *)
Lemma concat_credit {X} (x : X) (g : key -> list X) (k0 : key) (K : list key) :
  NoDup K -> In k0 K ->
  Permutation (List.concat (map (fun k => if key_eqb k k0 then x :: g k else g k) K))
              (x :: List.concat (map g K)).
Proof.
  induction 1 as [| k K Hk Hnd IH]; intros Hin; [destruct Hin |].
  simpl. destruct (key_eqb k k0) eqn:E.
  - apply key_eqb_eq in E. subst k0. simpl. constructor.
    apply Permutation_app_head.
    assert (Heq : map (fun k' => if key_eqb k' k then x :: g k' else g k') K
                  = map g K).
    { apply map_ext_in. intros k' Hk'.
      destruct (key_eqb k' k) eqn:E'; [| reflexivity].
      apply key_eqb_eq in E'. subst. contradiction. }
    now rewrite Heq.
  - destruct Hin as [-> | Hin].
    + rewrite (proj2 (key_eqb_eq k0 k0) eq_refl) in E. discriminate.
    + rewrite (IH Hin). symmetry. apply Permutation_middle.
Qed.

(** The groups hold between them the entries of the rows that have a key,
    each once. *)
Lemma groups_perm {X} (K : list key) (ks : list (option key)) (xs : list X) :
  NoDup K -> (forall k, In (Some k) ks -> In k K) ->
  Permutation (List.concat (map (group ks xs) K)) (take (map present ks) xs).
Proof.
  intros Hnd. revert xs.
  induction ks as [| o ks IH]; intros xs Hcov.
  - unfold group. simpl. now rewrite concat_map_nil.
  - destruct xs as [| x xs].
    + unfold group. simpl. now rewrite concat_map_nil.
    + assert (Hcov' : forall k, In (Some k) ks -> In k K)
        by (intros k Hk; apply Hcov; now right).
      specialize (IH xs Hcov').
      destruct o as [k0 |].
      * unfold group in *. simpl.
        rewrite <- IH.
        rewrite <- (concat_credit x _ k0 K Hnd (Hcov k0 (or_introl eq_refl))).
        apply Permutation_refl'; f_equal; apply map_ext; intros k;
          destruct (key_eqb k k0); reflexivity.
      * unfold group in *. simpl. exact IH.
Qed.

Lemma dropna_app {A} (l1 l2 : list (option A)) :
  dropna (l1 ++ l2) = dropna l1 ++ dropna l2.
Proof.
  induction l1 as [| [a |] l1 IH]; simpl; [reflexivity | now rewrite IH | exact IH].
Qed.

Lemma dropna_concat {A} (ls : list (list (option A))) :
  dropna (List.concat ls) = List.concat (map dropna ls).
Proof.
  induction ls as [| l ls IH]; simpl; [reflexivity |].
  now rewrite dropna_app, IH.
Qed.

Lemma dropna_perm {A} (l1 l2 : list (option A)) :
  Permutation l1 l2 -> Permutation (dropna l1) (dropna l2).
Proof.
  induction 1 as [| [a |] l1 l2 _ IH | [a |] [b |] l | l1 l2 l3 _ IH1 _ IH2]; simpl.
  - constructor.
  - now constructor.
  - exact IH.
  - apply perm_swap.
  - reflexivity.
  - reflexivity.
  - reflexivity.
  - now transitivity (dropna l2).
Qed.

Section Aggregation.

Context {N : Numeric} {F : Floating}.

Lemma length_msum {A} (xs : list A) :
  List.length xs = msum Nat.add 0 (map (fun _ => 1) xs).
Proof. induction xs as [| x xs IH]; simpl; [reflexivity | now rewrite IH]. Qed.

Lemma list_sum_msum (l : list nat) : list_sum l = msum Nat.add 0 l.
Proof. reflexivity. Qed.

(** The sums of the groups of int64 values add up to the sum over the rows
    with a key. *)
Lemma total_groups (ks : list (option key)) (xs : list num) :
  total (map (fun k => total (group ks xs k)) (group_keys ks))
  = total (take (map present ks) xs).
Proof.
  pose proof (msum_groups num num_add num_zero num_add_assoc num_add_comm
                num_add_0_l (fun x => x) (group_keys ks) ks xs
                (group_keys_NoDup ks) (fun k => proj2 (group_keys_In ks k))) as H.
  rewrite map_id in H. unfold total, msum in *. rewrite <- H.
  f_equal. apply map_ext. intros k. now rewrite map_id.
Qed.

(** The non-missing values of the groups are, between them, the non-missing
    values of the rows with a key. *)
Lemma dropna_groups {A} (ks : list (option key)) (xs : list (option A)) :
  Permutation (List.concat (map (fun k => dropna (group ks xs k)) (group_keys ks)))
              (dropna (take (map present ks) xs)).
Proof.
  rewrite <- (map_map (group ks xs) (@dropna A)), <- dropna_concat.
  apply dropna_perm, groups_perm.
  - apply group_keys_NoDup.
  - intros k. apply group_keys_In.
Qed.

(** The sizes of the groups add up to the number of rows with a key. *)
Lemma size_groups {A} (ks : list (option key)) (xs : list A) :
  list_sum (map (fun k => List.length (group ks xs k)) (group_keys ks))
  = List.length (take (map present ks) xs).
Proof.
  rewrite length_msum, list_sum_msum.
  rewrite <- (msum_groups nat Nat.add 0 Nat.add_assoc Nat.add_comm Nat.add_0_l
                (fun _ => 1) (group_keys ks) ks xs
                (group_keys_NoDup ks) (fun k => proj2 (group_keys_In ks k))).
  f_equal. apply map_ext. intros k. apply length_msum.
Qed.

End Aggregation.

(* ===================================================================== *)
(** ** The column classifier *)
(* ===================================================================== *)

Section Classifier.

Context {N : Numeric} {F : Floating}.
Variable to_datetime_raises : Series -> bool.

Lemma select_dtypes_incl (include : list dtype) (df : DataFrame) :
  incl (select_dtypes include df) (columns df).
Proof.
  unfold select_dtypes, columns. intros c Hc.
  apply in_map_iff in Hc. destruct Hc as [s [<- Hs]].
  apply filter_In in Hs. apply in_map, Hs.
Qed.

Lemma same_name_same_column (df : DataFrame) (s s' : Series) :
  NoDup (columns df) -> In s df -> In s' df -> name s = name s' -> s = s'.
Proof.
  unfold columns. induction df as [| c df IH]; simpl; [tauto |].
  intros Hnd Hs Hs' E. inversion Hnd as [| ? ? Hc Hnd']; subst.
  destruct Hs as [-> | Hs], Hs' as [-> | Hs'].
  - reflexivity.
  - exfalso. apply Hc. rewrite E. now apply in_map.
  - exfalso. apply Hc. rewrite <- E. now apply in_map.
  - now apply IH.
Qed.

Lemma select_dtypes_In (include : list dtype) (df : DataFrame) (s : Series) :
  NoDup (columns df) -> In s df ->
  (In (name s) (select_dtypes include df)
   <-> existsb (dtype_eqb (dtype_of (values s))) include = true).
Proof.
  intros Hnd Hs. unfold select_dtypes, columns. rewrite in_map_iff. split.
  - intros [s' [E Hs']]. apply filter_In in Hs'. destruct Hs' as [Hin Hb].
    now rewrite <- (same_name_same_column df s' s Hnd Hin Hs E).
  - intros Hb. exists s. split; [reflexivity |]. apply filter_In. now split.
Qed.

Lemma date_cols_incl (df : DataFrame) :
  incl (date_cols to_datetime_raises df) (columns df).
Proof.
  induction df as [| s df IH]; simpl; [easy |].
  destruct (to_datetime_raises s).
  - now apply incl_tl.
  - intros c [<- | Hc]; [now left | right; now apply IH].
Qed.

(** C4, as the code has it: the classifier goes by dtype.  A column is
    numeric exactly when its dtype is int64 or float64 and categorical
    exactly when its dtype is object (or category), never both; a column of
    another dtype, such as bool, is in neither list.  The three lists hold
    column names of the dataset only. *)
Theorem classify_by_dtype (df : DataFrame) :
  NoDup (columns df) ->
  (forall s, In s df ->
     (In (name s) (numeric_cols df)
      <-> dtype_of (values s) = dt_int64 \/ dtype_of (values s) = dt_float64) /\
     (In (name s) (categorical_cols df)
      <-> dtype_of (values s) = dt_object \/ dtype_of (values s) = dt_category) /\
     ~ (In (name s) (numeric_cols df) /\ In (name s) (categorical_cols df))) /\
  incl (numeric_cols df) (columns df) /\
  incl (categorical_cols df) (columns df) /\
  incl (date_cols to_datetime_raises df) (columns df).
Proof.
  intros Hnd. split; [| repeat split].
  - intros s Hs. unfold numeric_cols, categorical_cols.
    rewrite !(select_dtypes_In _ df s Hnd Hs).
    destruct (dtype_of (values s)); simpl;
      repeat split; intros; intuition congruence.
  - apply select_dtypes_incl.
  - apply select_dtypes_incl.
  - apply date_cols_incl.
Qed.

End Classifier.

(** C4 at the dataset [region_flag]: its column of texts is categorical and
    not numeric, its column of booleans is neither. *)
Lemma classify_by_dtype_region_flag :
  NoDup (columns region_flag) /\
  (In "Region" (categorical_cols region_flag) /\
   ~ In "Region" (numeric_cols region_flag)) /\
  (~ In "Aktif" (numeric_cols region_flag) /\
   ~ In "Aktif" (categorical_cols region_flag)) /\
  incl (date_cols never_a_date region_flag) (columns region_flag) /\
  incl (numeric_cols region_flag) (columns region_flag).
Proof.
  assert (Hnd : NoDup (columns region_flag)).
  { simpl. repeat constructor; simpl; intuition discriminate. }
  pose proof (classify_by_dtype never_a_date region_flag Hnd) as [H [Hn [_ Hd]]].
  split; [exact Hnd |].
  destruct (H {| name := "Region"; values := Object [Some "A"; Some "B"] |}
              ltac:(now left)) as [Rn [Rc _]].
  destruct (H {| name := "Aktif"; values := Bool [true; false] |}
              ltac:(right; now left)) as [An [Ac _]].
  cbn [name values dtype_of] in Rn, Rc, An, Ac.
  split; [split |]; [apply Rc; now left | | split; [split |]].
  - intros Hin. apply Rn in Hin. destruct Hin; discriminate.
  - intros Hin. apply An in Hin. destruct Hin; discriminate.
  - intros Hin. apply Ac in Hin. destruct Hin; discriminate.
  - split; [exact Hd | exact Hn].
Defined.

(** C4 as stated fails on a column of booleans: [Aktif] is a column of
    [region_flag] and is classified neither numeric nor categorical. *)
Lemma bool_column_is_unclassified :
  In "Aktif" (columns region_flag) /\
  ~ In "Aktif" (numeric_cols region_flag) /\
  ~ In "Aktif" (categorical_cols region_flag).
Proof.
  simpl. repeat split.
  - right. now left.
  - intros [].
  - intros [H | []]. discriminate.
Qed.

(* ===================================================================== *)
(** ** The aggregation button *)
(* ===================================================================== *)

Lemma mem_In (x : string) (l : list string) : mem x l = true <-> In x l.
Proof.
  unfold mem. rewrite existsb_exists. split.
  - intros [y [Hy E]]. apply String.eqb_eq in E. now subst.
  - intros H. exists x. split; [exact H | apply String.eqb_refl].
Qed.

Lemma mem_not_In (x : string) (l : list string) : ~ In x l -> mem x l = false.
Proof.
  intros H. destruct (mem x l) eqn:E; [| reflexivity].
  apply mem_In in E. contradiction.
Qed.

Lemma NoDup_has_dup (l : list string) : NoDup l -> has_dup l = false.
Proof.
  induction 1 as [| x l Hx Hl IH]; simpl; [reflexivity |].
  now rewrite (mem_not_In x l Hx), IH.
Qed.

Section Button.

Context {N : Numeric} {F : Floating}.

Lemma getitem_In (df : DataFrame) (col : string) (s : Series) :
  getitem df col = Ok s -> In s df /\ name s = col.
Proof.
  induction df as [| c df IH]; simpl; [discriminate |].
  destruct (String.eqb_spec (name c) col) as [E | E].
  - intros H. injection H as ->. split; [now left | exact E].
  - intros H. destruct (IH H). split; [now right | assumption].
Qed.

Lemma In_getitem (df : DataFrame) (s : Series) :
  NoDup (columns df) -> In s df -> getitem df (name s) = Ok s.
Proof.
  unfold columns. induction df as [| c df IH]; simpl; [tauto |].
  intros Hnd [-> | Hs].
  - now rewrite String.eqb_refl.
  - inversion Hnd as [| ? ? Hc Hnd']; subst.
    destruct (String.eqb_spec (name c) (name s)) as [E | E].
    + exfalso. apply Hc. rewrite E. now apply in_map.
    + now apply IH.
Qed.

(** A categorical column is a column of texts. *)
Lemma key_column_categorical (df : DataFrame) (col : string) :
  NoDup (columns df) -> In col (categorical_cols df) ->
  exists xs, key_column df col = Ok xs.
Proof.
  intros Hnd Hc. unfold categorical_cols, select_dtypes, columns in Hc.
  apply in_map_iff in Hc. destruct Hc as [s [<- Hs]].
  apply filter_In in Hs. destruct Hs as [Hs Hb].
  unfold key_column. rewrite (In_getitem df s Hnd Hs). simpl.
  destruct (values s); simpl in Hb; try discriminate. now eexists.
Qed.

Lemma mapM_key_column (df : DataFrame) (cols : list string) :
  NoDup (columns df) -> incl cols (categorical_cols df) ->
  exists kcs, mapM (key_column df) cols = Ok kcs.
Proof.
  intros Hnd. induction cols as [| c cols IH]; intros Hin; simpl.
  - now eexists.
  - destruct (key_column_categorical df c Hnd (Hin c (or_introl eq_refl)))
      as [xs ->].
    destruct IH as [kcs ->]; [intros x Hx; apply Hin; now right |].
    simpl. now eexists.
Qed.

(** Counting succeeds on distinct categorical columns, none named [Hasil]. *)
Lemma groupby_size_total (df : DataFrame) (cols : list string) :
  NoDup (columns df) -> cols <> [] -> NoDup cols ->
  incl cols (categorical_cols df) -> ~ In "Hasil" cols ->
  exists r, groupby_size df cols = Ok r.
Proof.
  intros Hnd Hne Hcols Hin Hh.
  destruct (mapM_key_column df cols Hnd Hin) as [kcs E].
  unfold groupby_size, groupby.
  destruct cols as [| c cols]; [congruence |].
  rewrite (NoDup_has_dup _ Hcols), E. cbn [bind].
  rewrite (mem_not_In _ _ Hh). now eexists.
Qed.

(** C8: a request that fails leaves the session state as it was.  With an
    empty grouping sequence or without a value column the button answers
    with a warning, and when the computation raises it answers with the
    error; in all three cases the stored result and its configuration are
    the previous ones.  The state changes only together with the message of
    success. *)
Theorem failed_request_keeps_result (df : DataFrame) (cols : list string)
  (v : option string) (op : agg) (st : session_state) :
  on_click df [] v op st = Ok (st, warning) /\
  on_click df cols None op st = Ok (st, warning) /\
  (forall x e, cols <> [] -> truthy x = true -> compute df cols x op = Raise e ->
     on_click df cols (Some x) op st = Ok (st, error e)) /\
  (forall st' m, on_click df cols v op st = Ok (st', m) ->
     (m <> success -> st' = st) /\ (st' <> st -> m = success)).
Proof.
  split; [reflexivity |].
  split; [destruct cols; reflexivity |].
  split.
  - intros x e Hne Hx E. unfold on_click.
    destruct cols; [congruence |]. now rewrite Hx, E.
  - intros st' m. unfold on_click.
    destruct cols as [| c cols]; [| destruct v as [x |]].
    + intros H. injection H as <- <-. split; [reflexivity | congruence].
    + destruct (truthy x).
      * destruct (compute df (c :: cols) x op);
          intros H; try discriminate; injection H as <- <-;
          split; congruence.
      * intros H. injection H as <- <-. split; [reflexivity | congruence].
    + intros H. injection H as <- <-. split; [reflexivity | congruence].
Qed.

(** C5, as the code has it: counting is behind the same gate as every other
    operation.  Without a grouping column, or without a selected value
    column, the request is refused with a warning and nothing is stored.
    With a value column selected, on distinct categorical grouping columns
    (none of them named [Hasil]), the count is computed, and it is the same
    whichever value column is selected. *)
Theorem count_wants_a_value_column (df : DataFrame) (cols : list string)
  (st : session_state) :
  (forall v, on_click df [] v Count st = Ok (st, warning)) /\
  on_click df cols None Count st = Ok (st, warning) /\
  (NoDup (columns df) -> cols <> [] -> NoDup cols ->
   incl cols (categorical_cols df) -> ~ In "Hasil" cols ->
   exists r, groupby_size df cols = Ok r /\
     forall v, truthy v = true ->
       on_click df cols (Some v) Count st = Ok (stored r cols v Count, success)).
Proof.
  split; [reflexivity |].
  split; [destruct cols; reflexivity |].
  intros Hnd Hne Hcols Hin Hh.
  destruct (groupby_size_total df cols Hnd Hne Hcols Hin Hh) as [r E].
  exists r. split; [exact E |].
  intros v Hv. unfold on_click.
  destruct cols; [congruence |].
  rewrite Hv. simpl compute. now rewrite E.
Qed.

End Button.

(* ===================================================================== *)
(** ** Grouping by one column *)
(* ===================================================================== *)

Section OneColumn.

Context {N : Numeric} {F : Floating}.

Lemma key_tuples_single (n : nat) (kxs : list (option string)) :
  List.length kxs = n ->
  key_tuples n [kxs] = map (option_map (fun x => [x])) kxs.
Proof.
  unfold key_tuples. simpl. revert n.
  induction kxs as [| o kxs IH]; intros [| n] H; simpl in *;
    try discriminate; [reflexivity |].
  rewrite IH by congruence. now destruct o.
Qed.

Lemma key_column_length (df : DataFrame) (g : string) (kxs : list (option string)) :
  rectangular df -> key_column df g = Ok kxs -> List.length kxs = len df.
Proof.
  intros Hrect H. unfold key_column in H.
  apply bind_Ok in H. destruct H as [s [Hs H]].
  apply getitem_In in Hs. destruct Hs as [Hs _].
  specialize (Hrect s Hs).
  destruct (values s); try discriminate. injection H as <-. exact Hrect.
Qed.

Lemma value_column_length (df : DataFrame) (v : string) (vals : numbers) :
  rectangular df -> value_column df v = Ok vals -> cells vals = len df.
Proof.
  intros Hrect H. unfold value_column in H.
  apply bind_Ok in H. destruct H as [s [Hs H]].
  apply getitem_In in Hs. destruct Hs as [Hs _].
  specialize (Hrect s Hs).
  destruct (values s); try discriminate; injection H as <-; exact Hrect.
Qed.

Lemma groupby_single (df : DataFrame) (g : string) (kxs : list (option string)) :
  rectangular df -> key_column df g = Ok kxs ->
  groupby df [g] = Ok (map (option_map (fun x => [x])) kxs).
Proof.
  intros Hrect H. unfold groupby, has_dup, mem.
  cbn [existsb orb mapM]. rewrite H. cbn [bind].
  now rewrite (key_tuples_single _ _ (key_column_length df g kxs Hrect H)).
Qed.

Lemma present_single (kxs : list (option string)) :
  map present (map (option_map (fun x => [x])) kxs) = map (@present string) kxs.
Proof. rewrite map_map. apply map_ext. now intros []. Qed.

Lemma In_single (kxs : list (option string)) (k : key) :
  In (Some k) (map (option_map (fun x => [x])) kxs)
  <-> exists x, k = [x] /\ In (Some x) kxs.
Proof.
  rewrite in_map_iff. split.
  - intros [[x |] [E Hx]]; simpl in E; try discriminate.
    injection E as <-. now exists x.
  - intros [x [-> Hx]]. now exists (Some x).
Qed.

Lemma take_all {A} (mask : list bool) (xs : list A) :
  forallb (fun b => b) mask = true -> List.length xs = List.length mask ->
  take mask xs = xs.
Proof.
  revert xs. induction mask as [| b mask IH]; intros [| x xs] Hall Hlen;
    simpl in *; try discriminate; try reflexivity.
  apply andb_true_iff in Hall. destruct Hall as [-> Hall].
  f_equal. apply IH; [exact Hall | congruence].
Qed.

Lemma take_present_length (kxs : list (option string)) (ks : list (option key)) :
  List.length ks = List.length kxs ->
  List.length (take (map present kxs) ks) = List.length (dropna kxs).
Proof.
  revert ks. induction kxs as [| [x |] kxs IH]; intros [| k ks] H;
    simpl in *; try discriminate; try reflexivity.
  - f_equal. apply IH. congruence.
  - apply IH. congruence.
Qed.

Lemma dropna_all_present {A} (xs : list (option A)) :
  forallb present xs = true -> List.length (dropna xs) = List.length xs.
Proof.
  induction xs as [| [x |] xs IH]; simpl; intros H;
    try discriminate; [reflexivity | f_equal; now apply IH].
Qed.

Lemma forallb_map {A B} (f : A -> B) (p : B -> bool) (l : list A) :
  forallb p (map f l) = forallb (fun a => p (f a)) l.
Proof. induction l as [| a l IH]; simpl; [reflexivity | now rewrite IH]. Qed.

(** C1, as the code has it: [groupby] leaves out the rows whose key is
    missing.  For a column [g] of texts and a numeric column [v], every value
    of column [Hasil] of the sum aggregation is the sum of one group of
    values of [v], and the groups hold between them exactly the non-missing
    values of [v] on the rows whose value of [g] is not missing, which are
    all the non-missing values of [v] when no value of [g] is missing.  For
    an int64 column the values of [Hasil] therefore add up to the sum of [v]
    over those rows, in the arithmetic of int64; for a float64 column they
    are the sums the library computes, in floating point, of those same
    values. *)
Theorem sum_over_rows_with_a_key (df : DataFrame) (g v : string)
  (kxs : list (option string)) (vals : numbers) :
  rectangular df ->
  key_column df g = Ok kxs ->
  value_column df v = Ok vals ->
  exists r, compute df [g] v Sum = Ok r /\
    match vals with
    | Ints xs =>
        exists groups : list (list num),
          map snd (res_rows r) = map (fun vs => Value (total vs)) groups /\
          Permutation (List.concat groups) (take (map present kxs) xs) /\
          hasil_total r = total (take (map present kxs) xs) /\
          (forallb present kxs = true ->
           Permutation (List.concat groups) xs /\ hasil_total r = total xs)
    | Floats xs =>
        exists groups : list (list flt),
          map snd (res_rows r) = map (fun vs => FloatValue (flt_sum vs)) groups /\
          Permutation (List.concat groups) (dropna (take (map present kxs) xs)) /\
          (forallb present kxs = true ->
           Permutation (List.concat groups) (dropna xs))
    end.
Proof.
  intros Hrect Hg Hv.
  pose proof (value_column_length df v vals Hrect Hv) as Hlen.
  pose proof (key_column_length df g kxs Hrect Hg) as Hklen.
  unfold compute, groupby_agg.
  rewrite (groupby_single df g kxs Hrect Hg), Hv. cbn [bind].
  set (ks := map (option_map (fun x => [x])) kxs).
  assert (Hp : map (@present key) ks = map (@present string) kxs)
    by apply present_single.
  eexists. split; [reflexivity |]. cbn [res_rows]. rewrite map_map. cbn [snd].
  destruct vals as [xs | xs]; cbn [group_numbers reduce cells] in *.
  - exists (map (group ks xs) (group_keys ks)).
    split; [now rewrite map_map |].
    assert (Hperm : Permutation (List.concat (map (group ks xs) (group_keys ks)))
                                (take (map (@present string) kxs) xs)).
    { rewrite <- Hp. apply groups_perm;
        [apply group_keys_NoDup | intros k; apply group_keys_In]. }
    assert (E : hasil_total
                  {| res_columns := [g] ++ ["Hasil"];
                     res_rows := map (fun k => (k, Value (total (group ks xs k))))
                                     (group_keys ks) |}
                = total (take (map present kxs) xs)).
    { unfold hasil_total. cbn [res_rows]. rewrite map_map. cbn [snd].
      rewrite <- Hp. apply total_groups. }
    split; [exact Hperm |]. split; [exact E |].
    intros Hall.
    assert (Et : take (map (@present string) kxs) xs = xs).
    { apply take_all; [now rewrite forallb_map | rewrite length_map; congruence]. }
    rewrite Et in Hperm, E. now split.
  - exists (map (fun k => dropna (group ks xs k)) (group_keys ks)).
    split; [now rewrite map_map |].
    split; [rewrite <- Hp; apply dropna_groups |].
    intros Hall. rewrite dropna_groups, Hp, take_all; [reflexivity | |].
    + now rewrite forallb_map.
    + rewrite length_map. congruence.
Qed.

(** C2, as the code has it: the count is computed only when a value column
    is selected, and [groupby] leaves out the rows whose key is missing.  For
    a column [g] of texts that is not itself named [Hasil]: with a value
    column selected, the count aggregation is stored, it has exactly one row
    per distinct non-missing value of [g], and the sum of its column [Hasil]
    is the number of rows whose value of [g] is not missing, which is the
    number of rows of the dataset when no value of [g] is missing; with no
    value column selected the request is refused. *)
Theorem count_per_distinct_key (df : DataFrame) (g : string)
  (kxs : list (option string)) (st : session_state) :
  rectangular df ->
  key_column df g = Ok kxs ->
  g <> "Hasil" ->
  on_click df [g] None Count st = Ok (st, warning) /\
  exists r,
    (forall v, truthy v = true ->
       on_click df [g] (Some v) Count st = Ok (stored r [g] v Count, success)) /\
    NoDup (result_keys r) /\
    (forall k, In k (result_keys r) <-> exists x, k = [x] /\ In (Some x) kxs) /\
    hasil_rows r = List.length (dropna kxs) /\
    (forallb present kxs = true -> hasil_rows r = len df).
Proof.
  intros Hrect Hg Hname. split; [reflexivity |].
  set (ks := map (option_map (fun x => [x])) kxs).
  exists {| res_columns := [g] ++ ["Hasil"];
            res_rows := map (fun k => (k, Rows (List.length (group ks ks k))))
                            (group_keys ks) |}.
  assert (Hrows : hasil_rows
            {| res_columns := [g] ++ ["Hasil"];
               res_rows := map (fun k => (k, Rows (List.length (group ks ks k))))
                               (group_keys ks) |}
          = List.length (dropna kxs)).
  { unfold hasil_rows. cbn [res_rows]. rewrite map_map. cbn [snd].
    rewrite size_groups. unfold ks at 1. rewrite present_single.
    apply take_present_length. unfold ks. now rewrite length_map. }
  split; [| split; [| split; [| split]]].
  - intros v Hv. unfold on_click. rewrite Hv.
    unfold compute, groupby_size.
    rewrite (groupby_single df g kxs Hrect Hg). cbn [bind].
    fold ks.
    assert (Hm : mem "Hasil" [g] = false).
    { apply mem_not_In. intros [E | []]. congruence. }
    now rewrite Hm.
  - unfold result_keys. cbn [res_rows]. rewrite map_map. cbn [fst].
    rewrite map_id. apply group_keys_NoDup.
  - intros k. unfold result_keys. cbn [res_rows]. rewrite map_map. cbn [fst].
    rewrite map_id, group_keys_In. apply In_single.
  - exact Hrows.
  - intros Hall. rewrite Hrows, (dropna_all_present _ Hall).
    apply (key_column_length df g kxs Hrect Hg).
Qed.

(** The keys of a result are the groups of its [groupby]. *)
Lemma compute_keys (df : DataFrame) (cols : list string) (v : string)
  (op : agg) (r : result_df) :
  compute df cols v op = Ok r ->
  exists ks, groupby df cols = Ok ks /\ result_keys r = group_keys ks.
Proof.
  assert (Hagg : forall op', groupby_agg df cols v op' = Ok r ->
            exists ks, groupby df cols = Ok ks /\ result_keys r = group_keys ks).
  { intros op'. unfold groupby_agg. intros H.
    apply bind_Ok in H. destruct H as [ks [Hks H]].
    apply bind_Ok in H. destruct H as [vs [Hvs H]].
    injection H as <-. exists ks. split; [exact Hks |].
    unfold result_keys. cbn [res_rows]. rewrite map_map. cbn [fst].
    apply map_id. }
  destruct op; simpl; try apply Hagg.
  unfold groupby_size. intros H.
  apply bind_Ok in H. destruct H as [ks [Hks H]].
  destruct (mem "Hasil" cols); try discriminate.
  injection H as <-. exists ks. split; [exact Hks |].
  unfold result_keys. cbn [res_rows]. rewrite map_map. cbn [fst].
  apply map_id.
Qed.

End OneColumn.

(* ===================================================================== *)
(** ** The order of the result rows *)
(* ===================================================================== *)

(** C3, as the code has it: [groupby] sorts its groups.  The rows of every
    aggregation result come in strictly ascending order of their group keys,
    and the keys are those of the rows of the dataset without a missing
    component.  On the dataset of the scenario, regions [A, A, B] with sales
    [10, 20, 30], the sum by region is [(A, 30), (B, 30)]. *)
Theorem rows_in_ascending_key_order :
  (forall (N : Numeric) (F : Floating) (df : DataFrame) (cols : list string)
          (v : string) (op : agg) (r : result_df),
     compute df cols v op = Ok r ->
     StronglySorted (lt_by key_compare) (result_keys r) /\
     exists ks, groupby df cols = Ok ks /\
       forall k, In k (result_keys r) <-> In (Some k) ks) /\
  compute region_sales ["Region"] "Sales" Sum
  = Ok {| res_columns := ["Region"; "Hasil"];
          res_rows := [(["A"], Value (i64 30)); (["B"], Value (i64 30))] |}.
Proof.
  split.
  - intros N F df cols v op r H.
    destruct (compute_keys df cols v op r H) as [ks [Hks E]].
    rewrite E. split; [apply group_keys_sorted |].
    exists ks. split; [exact Hks | apply group_keys_In].
  - reflexivity.
Qed.

(** C3 at the dataset [region_reversed]. *)
Lemma rows_in_ascending_key_order_reversed :
  exists r, compute region_reversed ["Region"] "Sales" Sum = Ok r /\
    StronglySorted (lt_by key_compare) (result_keys r).
Proof.
  exists {| res_columns := ["Region"; "Hasil"];
            res_rows := [(["A"], Value (i64 2)); (["B"], Value (i64 1))] |}.
  split; [reflexivity |].
  apply (proj1 rows_in_ascending_key_order int64 only_zero region_reversed
           ["Region"] "Sales" Sum _ eq_refl).
Defined.

(** C3 as stated fails when the keys are not first seen in ascending order:
    in [region_reversed] region [B] is seen before region [A], and the result
    has [A] before [B]. *)
Lemma first_seen_order_is_not_kept :
  exists r ks,
    compute region_reversed ["Region"] "Sales" Sum = Ok r /\
    groupby region_reversed ["Region"] = Ok ks /\
    first_seen_keys ks = [["B"]; ["A"]] /\
    result_keys r = [["A"]; ["B"]] /\
    result_keys r <> first_seen_keys ks.
Proof.
  exists {| res_columns := ["Region"; "Hasil"];
            res_rows := [(["A"], Value (i64 2)); (["B"], Value (i64 1))] |},
         [Some ["B"]; Some ["A"]].
  repeat split; try reflexivity.
  discriminate.
Qed.

(* ===================================================================== *)
(** ** The aggregation on the example datasets *)
(* ===================================================================== *)

Lemma region_sales_rectangular : rectangular region_sales.
Proof. intros s [<- | [<- | []]]; reflexivity. Defined.

(** C1 at the dataset of the scenario. *)
Lemma sum_over_rows_with_a_key_region_sales :
  rectangular region_sales /\
  exists r, compute region_sales ["Region"] "Sales" Sum = Ok r /\
    hasil_total r = i64 60.
Proof.
  split; [exact region_sales_rectangular |].
  destruct (sum_over_rows_with_a_key region_sales "Region" "Sales"
              [Some "A"; Some "A"; Some "B"]
              (Ints [i64 10; i64 20; i64 30])
              region_sales_rectangular eq_refl eq_refl)
    as [r [Hr [groups [_ [_ [Ht _]]]]]].
  exists r. split; [exact Hr |]. rewrite Ht. reflexivity.
Defined.

(** C1 as stated fails when a grouping key is missing: in [region_missing]
    the sales of the row without a region are in no group, the results add
    up to 10 while the values of the column add up to 30. *)
Lemma sum_misses_rows_without_key :
  exists r xs,
    compute region_missing ["Region"] "Sales" Sum = Ok r /\
    value_column region_missing "Sales" = Ok (Ints xs) /\
    hasil_total r = i64 10 /\
    total xs = i64 30 /\
    hasil_total r <> total xs.
Proof.
  exists {| res_columns := ["Region"; "Hasil"];
            res_rows := [(["A"], Value (i64 10))] |},
         [i64 10; i64 20].
  repeat split; try reflexivity.
  intros E. apply (f_equal word.unsigned) in E. discriminate E.
Qed.

(** C2 at the dataset of the scenario. *)
Lemma count_per_distinct_key_region_sales :
  rectangular region_sales /\
  exists r,
    on_click region_sales ["Region"] (Some "Sales") Count no_result
    = Ok (stored r ["Region"] "Sales" Count, success) /\
    hasil_rows r = 3.
Proof.
  split; [exact region_sales_rectangular |].
  destruct (count_per_distinct_key region_sales "Region"
              [Some "A"; Some "A"; Some "B"] no_result
              region_sales_rectangular eq_refl)
    as [_ [r [Hr [_ [_ [Hn _]]]]]]; [discriminate |].
  exists r. split; [now apply Hr | exact Hn].
Defined.

(** C2 as stated fails.  Without a value column nothing is counted:
    [region_only] has no numeric column and the request is refused.  The
    rows without a key are not counted: [region_missing] has two rows, the
    counts add up to one.  And a grouping column named [Hasil] cannot be
    counted: the computation raises. *)
Lemma count_refused_or_short :
  on_click region_only ["Region"] None Count no_result = Ok (no_result, warning) /\
  (exists r,
     on_click region_missing ["Region"] (Some "Sales") Count no_result
     = Ok (stored r ["Region"] "Sales" Count, success) /\
     hasil_rows r = 1 /\ len region_missing = 2) /\
  on_click hasil_sales ["Hasil"] (Some "Sales") Count no_result
  = Ok (no_result, error (ValueError "cannot insert Hasil, already exists")).
Proof.
  split; [reflexivity |]. split; [| reflexivity].
  eexists. repeat split; reflexivity.
Qed.

(** C5 at the dataset of the scenario. *)
Lemma count_wants_a_value_column_region_sales :
  exists r, groupby_size region_sales ["Region"] = Ok r /\
    on_click region_sales ["Region"] (Some "Sales") Count no_result
    = Ok (stored r ["Region"] "Sales" Count, success).
Proof.
  destruct (proj2 (proj2 (count_wants_a_value_column region_sales ["Region"]
                            no_result)))
    as [r [Hr Hv]].
  - simpl. repeat constructor; simpl; intuition discriminate.
  - discriminate.
  - repeat constructor. intros [].
  - intros c [<- | []]. now left.
  - intros [E | []]. discriminate.
  - exists r. split; [exact Hr | now apply Hv].
Defined.

(** C5 as stated fails: without a value column the count is refused, and no
    result is stored.  With a value column, a grouping column named [Hasil]
    makes the count raise. *)
Lemma count_without_value_column_is_refused :
  on_click region_only ["Region"] None Count no_result = Ok (no_result, warning) /\
  analysis_result no_result = None /\
  on_click hasil_sales ["Hasil"] (Some "Sales") Count no_result
  = Ok (no_result, error (ValueError "cannot insert Hasil, already exists")).
Proof. repeat split; reflexivity. Qed.

(** C8 at a computation that raises, on top of a stored result. *)
Lemma failed_request_keeps_result_hasil_sales :
  compute hasil_sales ["Hasil"] "Sales" Count
  = Raise (ValueError "cannot insert Hasil, already exists") /\
  on_click hasil_sales ["Hasil"] (Some "Sales") Count previous_result
  = Ok (previous_result,
        error (ValueError "cannot insert Hasil, already exists")).
Proof.
  split; [reflexivity |].
  apply (proj1 (proj2 (proj2 (failed_request_keeps_result hasil_sales ["Hasil"]
                                (Some "Sales") Count previous_result)))).
  - discriminate.
  - reflexivity.
  - reflexivity.
Defined.

(* ===================================================================== *)
(** ** The most frequent value *)
(* ===================================================================== *)

Lemma highest_ge (ns : list nat) (n : nat) : In n ns -> n <= highest ns.
Proof.
  induction ns as [| a ns IH]; simpl; [tauto |].
  intros [-> | H]; [lia | specialize (IH H); lia].
Qed.

Lemma highest_attained (ns : list nat) : ns <> [] -> In (highest ns) ns.
Proof.
  induction ns as [| a ns IH]; [congruence |]. intros _. simpl.
  destruct ns as [| b ns].
  - left. simpl. lia.
  - destruct (Nat.max_spec a (highest (b :: ns))) as [[_ E] | [_ E]];
      rewrite E; [right; apply IH; discriminate | now left].
Qed.

Lemma occurrences_In (v : string) (vs : list string) :
  In v vs <-> 1 <= occurrences v vs.
Proof.
  unfold occurrences. split.
  - intros H.
    assert (Hf : In v (filter (String.eqb v) vs))
      by (apply filter_In; split; [exact H | apply String.eqb_refl]).
    destruct (filter (String.eqb v) vs); [destruct Hf | simpl; lia].
  - intros H. destruct (filter (String.eqb v) vs) as [| x l] eqn:E;
      [simpl in H; lia |].
    assert (Hx : In x (filter (String.eqb v) vs)) by (rewrite E; now left).
    apply filter_In in Hx. destruct Hx as [Hx Hb].
    apply String.eqb_eq in Hb. now subst.
Qed.

(** The first of the modes is a most frequent value, and the least of the
    most frequent values. *)
Lemma mode_head (xs : list (option string)) :
  dropna xs <> [] ->
  exists m rest, mode xs = m :: rest /\
    In m (dropna xs) /\
    (forall v, occurrences v (dropna xs) <= occurrences m (dropna xs)) /\
    (forall v, occurrences v (dropna xs) = occurrences m (dropna xs) ->
               le_by String.compare m v).
Proof.
  intros Hne. unfold mode.
  set (vs := dropna xs) in *.
  set (U := unique String.eqb vs).
  set (top := highest (map (fun v => occurrences v vs) U)).
  set (F := filter (fun v => Nat.eqb (occurrences v vs) top) U).
  assert (HU : forall v, In v U <-> In v vs)
    by (intros v; apply unique_In, String.eqb_eq).
  assert (Hge : forall v, In v vs -> occurrences v vs <= top).
  { intros v Hv. apply highest_ge, in_map_iff. exists v.
    split; [reflexivity | now apply HU]. }
  assert (HF : F <> []).
  { assert (HUne : map (fun v => occurrences v vs) U <> []).
    { destruct vs as [| a vs'] eqn:E; [congruence |].
      assert (Ha : In a U) by (apply HU; now left).
      destruct U; [destruct Ha | discriminate]. }
    apply highest_attained in HUne. fold top in HUne.
    apply in_map_iff in HUne. destruct HUne as [u [Eu Hu]].
    assert (Hin : In u F)
      by (apply filter_In; split; [exact Hu | now apply Nat.eqb_eq]).
    intros E. rewrite E in Hin. destruct Hin. }
  destruct (sort String.compare F) as [| m rest] eqn:Es.
  { exfalso. apply HF.
    apply Permutation_nil. rewrite <- Es. apply sort_perm. }
  exists m, rest. split; [reflexivity |].
  assert (Hm : In m F).
  { apply (Permutation_in _ (sort_perm _ String.compare F)).
    rewrite Es. now left. }
  apply filter_In in Hm. destruct Hm as [HmU Hmtop].
  apply Nat.eqb_eq in Hmtop. apply HU in HmU.
  split; [exact HmU |]. split.
  - intros v. rewrite Hmtop.
    destruct (in_dec string_dec v vs) as [Hv | Hv]; [now apply Hge |].
    destruct (occurrences v vs) eqn:E; [lia |].
    exfalso. apply Hv, occurrences_In. lia.
  - intros v Ev.
    apply (sort_head_least _ String.compare str_compare_eq str_compare_opp
             str_compare_trans F m rest Es).
    apply filter_In. split.
    + apply HU, occurrences_In. rewrite Ev. now apply occurrences_In.
    + apply Nat.eqb_eq. congruence.
Qed.

(** C9, as the code has it: [mode()] returns the most frequent values in
    ascending order, so [mode()[0]] breaks a tie by taking the least of the
    tied values in the order of texts.  For a column with a non-missing
    value, the value shown is a value of the column, no value occurs more
    often, and it is not above any value that occurs as often; for a column
    without a non-missing value a dash is shown. *)
Theorem most_frequent_is_least_of_ties (xs : list (option string)) :
  (dropna xs = [] -> terbanyak xs = "-") /\
  (dropna xs <> [] ->
     In (Some (terbanyak xs)) xs /\
     (forall v, occurrences v (dropna xs) <= occurrences (terbanyak xs) (dropna xs)) /\
     (forall v, occurrences v (dropna xs) = occurrences (terbanyak xs) (dropna xs) ->
                le_by String.compare (terbanyak xs) v)).
Proof.
  split.
  - intros E. unfold terbanyak, mode. now rewrite E.
  - intros Hne. destruct (mode_head xs Hne) as [m [rest [E [Hin [Hmax Htie]]]]].
    unfold terbanyak. rewrite E.
    split; [now apply dropna_In | split; assumption].
Qed.

(** C9 at a column with a tie. *)
Lemma most_frequent_is_least_of_ties_b_a :
  dropna [Some "b"; Some "a"] <> [] /\
  terbanyak [Some "b"; Some "a"] = "a" /\
  le_by String.compare (terbanyak [Some "b"; Some "a"]) "b".
Proof.
  assert (Hne : dropna [Some "b"; Some "a"] <> []) by discriminate.
  split; [exact Hne |]. split; [reflexivity |].
  apply (proj2 (most_frequent_is_least_of_ties [Some "b"; Some "a"]) Hne).
  reflexivity.
Defined.

(** C9 as stated fails on the column [b, a]: both values occur once, [b] is
    encountered first, and the value shown is [a]. *)
Lemma tie_is_not_broken_by_first_encounter :
  first_encountered_mode [Some "b"; Some "a"] = Some "b" /\
  terbanyak [Some "b"; Some "a"] = "a".
Proof. split; reflexivity. Qed.

(* ===================================================================== *)
(** ** The simple mode *)
(* ===================================================================== *)

Lemma mapM_Forall2 {A B} (f : A -> result B) (l : list A) (bs : list B) :
  mapM f l = Ok bs -> Forall2 (fun a b => f a = Ok b) l bs.
Proof.
  revert bs. induction l as [| a l IH]; simpl; intros bs H.
  - injection H as <-. constructor.
  - apply bind_Ok in H. destruct H as [b [Hb H]].
    apply bind_Ok in H. destruct H as [bs' [Hbs H]].
    injection H as <-. constructor; [exact Hb | now apply IH].
Qed.



Section SimpleMode.

Context {N : Numeric} {F : Floating}.
Variable sort_values : list (string * nat) -> list (string * nat).

Lemma take_rows_shape (mask : list bool) (df : DataFrame) :
  shape (take_rows mask df) = shape df.
Proof.
  unfold shape, take_rows. rewrite map_map. apply map_ext.
  intros s. simpl. now destruct (values s).
Qed.






(** A numeric column is a column of numbers. *)
Lemma value_column_numeric (df : DataFrame) (col : string) :
  NoDup (columns df) -> In col (numeric_cols df) ->
  exists vs, value_column df col = Ok vs.
Proof.
  intros Hnd Hc. unfold numeric_cols, select_dtypes, columns in Hc.
  apply in_map_iff in Hc. destruct Hc as [s [<- Hs]].
  apply filter_In in Hs. destruct Hs as [Hs Hb].
  unfold value_column. rewrite (In_getitem df s Hnd Hs). simpl.
  destruct (values s); simpl in Hb; try discriminate; now eexists.
Qed.


(** What the tabs hold, read off a run that returns. *)
Lemma simple_mode_Ok (df : DataFrame) (filters : list (string * list string))
  (search : string) (t : tabs) :
  simple_mode sort_values df filters search = Ok t ->
  exists df_filtered df_display,
    apply_filters df filters = Ok df_filtered /\
    search_rows df_filtered search = Ok df_display /\
    drawn_from sort_values (numeric_cols df) (categorical_cols df) df_display t.
Proof.
  unfold simple_mode. intros H.
  apply bind_Ok in H. destruct H as [n [_ H]].
  apply bind_Ok in H. destruct H as [d [Hd H]].
  apply bind_Ok in H. destruct H as [tab1 [H1 H]].
  apply bind_Ok in H. destruct H as [stats [H3 H]].
  apply bind_Ok in H. destruct H as [rows [H4 H]].
  injection H as <-. cbn [grafik_kategori grafik_angka statistik cat_info].
  unfold display in Hd. apply bind_Ok in Hd. destruct Hd as [f [Hf Hd]].
  exists f, d. split; [exact Hf |]. split; [exact Hd |].
  unfold drawn_from. cbn [grafik_kategori grafik_angka statistik cat_info].
  split; [| split; [reflexivity | split]].
  - apply mapM_Forall2 in H1. eapply Forall2_impl; [| exact H1].
    intros col c Hc. unfold pie_chart in Hc.
    apply bind_Ok in Hc. destruct Hc as [xs [Hxs Hc]].
    injection Hc as <-. now exists xs.
  - apply mapM_Forall2 in H3. eapply Forall2_impl; [| exact H3].
    intros col row Hc.
    apply bind_Ok in Hc. destruct Hc as [vs [Hvs Hc]].
    injection Hc as <-. now exists vs.
  - apply mapM_Forall2 in H4. eapply Forall2_impl; [| exact H4].
    intros col row Hc. unfold cat_row in Hc.
    apply bind_Ok in Hc. destruct Hc as [xs [Hxs Hc]].
    injection Hc as <-. now exists xs.
Qed.

End SimpleMode.

(* ===================================================================== *)
(** ** Searching a text without pattern characters *)
(* ===================================================================== *)

Module RegexFacts.
Import Regex.

Lemma match_prefix_Never (r : regex) (s : string) :
  match_prefix (Cat Never r) s = false.
Proof. induction s as [| a s IH]; simpl; [reflexivity | exact IH]. Qed.

Lemma match_prefix_Alt (s : string) :
  forall r1 r2, match_prefix (Alt r1 r2) s = match_prefix r1 s || match_prefix r2 s.
Proof.
  induction s as [| a s IH]; intros r1 r2; simpl.
  - now rewrite !orb_false_r.
  - rewrite IH.
    destruct (nullable r1), (nullable r2),
             (match_prefix (deriv a r1) s), (match_prefix (deriv a r2) s);
      reflexivity.
Qed.

Lemma match_prefix_Empty (r : regex) (s : string) :
  match_prefix (Cat Empty r) s = match_prefix r s.
Proof.
  destruct s as [| a s]; simpl; [reflexivity |].
  now rewrite match_prefix_Alt, match_prefix_Never.
Qed.

Lemma match_prefix_literal (q : string) :
  forall s, match_prefix (literal q) s = starts_with q s.
Proof.
  induction q as [| c q IH]; intros s; simpl.
  - now destruct s.
  - destruct s as [| a s]; simpl; [reflexivity |].
    destruct (Ascii.eqb (lower a) (lower c)); simpl.
    + now rewrite match_prefix_Empty.
    + apply match_prefix_Never.
Qed.

Lemma search_literal (q s : string) : search (literal q) s = occurs_in q s.
Proof.
  induction s as [| a s IH]; cbn [search occurs_in].
  - now rewrite match_prefix_literal.
  - now rewrite match_prefix_literal, IH.
Qed.

Lemma plain_lone_backslash (p : string) :
  plain p = true -> lone_backslash p = false.
Proof.
  destruct p as [| c [| c' p]]; try reflexivity. simpl. intros H.
  destruct (Ascii.eqb c "\") eqn:E; [| reflexivity].
  apply Ascii.eqb_eq in E. subst. discriminate H.
Qed.

(** The frame after reading the plain ASCII text [p]. *)
Lemma parse_plain (p : string) :
  forall cur stack, plain p = true -> ascii_text p = true ->
    exists f, parse p cur stack = parse EmptyString f stack /\
      branches f = branches cur /\
      items f = rev (map Chr (list_ascii_of_string p)) ++ items cur.
Proof.
  induction p as [| c p IH]; intros cur stack Hp Ha.
  - exists cur. now repeat split.
  - simpl in Hp. apply andb_true_iff in Hp. destruct Hp as [Hc Hp].
    simpl in Ha. apply andb_true_iff in Ha. destruct Ha as [Hac Ha].
    apply negb_true_iff in Hc. unfold is_meta in Hc.
    repeat (apply orb_false_iff in Hc; destruct Hc as [Hc ?]).
    destruct (IH (push (Chr c) cur) stack Hp Ha) as [f [Hf [Hb Hi]]].
    exists f. split; [| split].
    + rewrite <- Hf. cbn [parse]. rewrite Hac, (plain_lone_backslash p Hp).
      repeat match goal with
             | E : Ascii.eqb c _ = false |- _ => rewrite E; clear E
             end.
      reflexivity.
    + exact Hb.
    + rewrite Hi. simpl. now rewrite <- app_assoc.
Qed.

(** A plain text with a character outside ASCII is outside the fragment. *)
Lemma parse_plain_outside (p : string) :
  forall cur stack, plain p = true -> ascii_text p = false ->
    parse p cur stack = OutsideFragment.
Proof.
  induction p as [| c p IH]; intros cur stack Hp Ha; [discriminate |].
  simpl in Hp. apply andb_true_iff in Hp. destruct Hp as [Hc Hp].
  simpl in Ha. cbn [parse].
  destruct (is_ascii c) eqn:Hac; [| reflexivity]. simpl in Ha.
  apply negb_true_iff in Hc. unfold is_meta in Hc.
  repeat (apply orb_false_iff in Hc; destruct Hc as [Hc ?]).
  rewrite (plain_lone_backslash p Hp).
  repeat match goal with
         | E : Ascii.eqb c _ = false |- _ => rewrite E; clear E
         end.
  cbn [negb orb]. now apply IH.
Qed.

Lemma seq_of_rev (l : list regex) :
  seq_of (rev l) = fold_right (fun r acc => Cat r acc) Empty l.
Proof.
  pose proof (fold_left_rev_right (fun r acc => Cat r acc) (rev l) Empty) as H.
  rewrite rev_involutive in H. unfold seq_of. symmetry. exact H.
Qed.

Lemma literal_fold (p : string) :
  fold_right (fun r acc => Cat r acc) Empty (map Chr (list_ascii_of_string p))
  = literal p.
Proof. induction p as [| c p IH]; simpl; [reflexivity | now rewrite IH]. Qed.

(** A plain ASCII text compiles to the pattern that matches it. *)
Lemma compile_plain (p : string) :
  plain p = true -> ascii_text p = true -> compile p = Pattern (literal p).
Proof.
  intros Hp Ha. unfold compile.
  destruct (parse_plain p empty_frame [] Hp Ha) as [f [-> [Hb Hi]]].
  simpl. unfold close. rewrite Hb, Hi. simpl.
  now rewrite app_nil_r, seq_of_rev, literal_fold.
Qed.

End RegexFacts.

Section PlainSearch.

Context {N : Numeric} {F : Floating}.

Lemma mapM_Ok_map {A B} (f : A -> result B) (g : A -> B) (l : list A) :
  (forall a, In a l -> f a = Ok (g a)) -> mapM f l = Ok (map g l).
Proof.
  induction l as [| a l IH]; intros H; simpl; [reflexivity |].
  rewrite (H a (or_introl eq_refl)), IH; [reflexivity |].
  intros x Hx. apply H. now right.
Qed.

Lemma any_axis1_0 (cols : list (list bool)) : any_axis1 0 cols = [].
Proof.
  unfold any_axis1. induction cols as [| c cols IH]; [reflexivity |].
  cbn [fold_right]. rewrite IH. now destruct c.
Qed.

(** X11.  For a search text of ASCII characters without pattern characters,
    on a dataset whose cells are all rendered in ASCII, the search keeps
    exactly the rows where the text itself occurs, letter case apart, in the
    rendering of some cell (a missing value being rendered as [nan]). *)
Lemma search_plain_text (df_filtered : DataFrame) (search : string) :
  Regex.plain search = true -> truthy search = true ->
  Regex.ascii_text search = true ->
  Forall (fun s => forallb Regex.ascii_text (astype_str (values s)) = true)
         df_filtered ->
  search_rows df_filtered search
  = Ok (take_rows
          (any_axis1 (len df_filtered)
             (map (fun s => map (Regex.occurs_in search) (astype_str (values s)))
                  df_filtered))
          df_filtered).
Proof.
  intros Hp Ht Ha Hcells. unfold search_rows, search_mask. rewrite Ht.
  destruct (Nat.eqb (len df_filtered) 0) eqn:E.
  - apply Nat.eqb_eq in E. now rewrite E, any_axis1_0.
  - rewrite (mapM_Ok_map _
               (fun s => map (Regex.occurs_in search) (astype_str (values s)))).
    + reflexivity.
    + intros s Hs. unfold str_contains.
      rewrite (RegexFacts.compile_plain search Hp Ha).
      rewrite Forall_forall in Hcells. rewrite (Hcells s Hs). f_equal.
      apply map_ext. intros x. apply RegexFacts.search_literal.
Qed.

End PlainSearch.

(* ===================================================================== *)
(** ** The search *)
(* ===================================================================== *)

(** C6 on a column with a missing name.  Searching [nan] keeps the row whose
    name is missing and drops the row of Budi: the missing value has become
    the text [nan] before the search.  Searching [b.d] keeps the row of Budi,
    whose name does not contain those three characters: the dot of the
    pattern stands for any character. *)
Theorem search_matches_missing_value :
  display names [] "nan" = Ok [ {| name := "Nama"; values := Object [None] |} ] /\
  display names [] "b.d"
  = Ok [ {| name := "Nama"; values := Object [Some "Budi"] |} ].
Proof. split; reflexivity. Qed.

(** C7 on the search text of one opening parenthesis, without any filter: on
    every dataset with a column and a row, compiling the pattern raises and
    the run of the script ends there.  Only a dataset without rows comes
    through, as empty as it is: nothing is compiled for it. *)
Theorem search_unbalanced_parenthesis_raises :
  forall (N : Numeric) (F : Floating) (s : Series) (df : DataFrame),
    display (s :: df) [] "("
    = match size (values s) with
      | 0 => Ok (take_rows [] (s :: df))
      | S _ => Raise (ReError "missing ), unterminated subpattern")
      end.
Proof.
  intros N F s df. unfold display. cbn [apply_filters bind].
  unfold search_rows, search_mask. cbn [truthy len].
  destruct (size (values s)); reflexivity.
Qed.

(* ===================================================================== *)
(** ** Grouping by several columns *)
(* ===================================================================== *)

Lemma mapM_length {A B} (f : A -> result B) (l : list A) (bs : list B) :
  mapM f l = Ok bs -> List.length bs = List.length l.
Proof.
  intros H. apply mapM_Forall2 in H.
  induction H; simpl; congruence.
Qed.

Lemma zip_with_length_le {A B C} (f : A -> B -> C) (l1 : list A) (l2 : list B) :
  List.length (zip_with f l1 l2) <= List.length l2.
Proof.
  revert l2. induction l1 as [| a l1 IH]; intros [| b l2]; simpl; try lia.
  specialize (IH l2). lia.
Qed.

Lemma take_length_le {A} (mask : list bool) (xs : list A) :
  List.length (take mask xs) <= List.length xs.
Proof.
  revert xs. induction mask as [| b mask IH]; intros [| x xs]; simpl; try lia.
  specialize (IH xs). destruct b; simpl; lia.
Qed.

Lemma take_count_true {A} (mask : list bool) (xs : list A) :
  List.length xs = List.length mask ->
  List.length (take mask xs) = count_true mask.
Proof.
  unfold count_true. revert xs.
  induction mask as [| b mask IH]; intros [| x xs] H; simpl in *;
    try discriminate; try reflexivity.
  destruct b; simpl; rewrite IH by congruence; reflexivity.
Qed.

Section SeveralColumns.

Context {N : Numeric} {F : Floating}.

Lemma key_tuples_length (n : nat) (kcs : list (list (option string))) :
  List.length (key_tuples n kcs) <= n.
Proof.
  unfold key_tuples. induction kcs as [| xs kcs IH]; simpl.
  - now rewrite repeat_length.
  - etransitivity; [apply zip_with_length_le | exact IH].
Qed.

(** A key has one component per grouping column. *)
Lemma key_tuples_width (n : nat) (kcs : list (list (option string))) :
  Forall (fun o => forall k, o = Some k -> List.length k = List.length kcs)
         (key_tuples n kcs).
Proof.
  unfold key_tuples. induction kcs as [| xs kcs IH]; simpl.
  - apply Forall_forall. intros o Ho k ->.
    apply repeat_spec in Ho. now injection Ho as ->.
  - revert IH. generalize (fold_right (zip_with cons_key) (repeat (Some []) n) kcs).
    intros acc. revert acc.
    induction xs as [| x xs IHxs]; intros [| a acc] Hacc; simpl; try constructor.
    + intros k Hk. destruct x, a; simpl in Hk; try discriminate.
      injection Hk as <-. simpl. f_equal.
      inversion Hacc; subst. auto.
    + apply IHxs. now inversion Hacc.
Qed.

(** A key is complete exactly on the rows where every grouping column has a
    value. *)
Lemma key_tuples_present (n : nat) (kcs : list (list (option string))) :
  map present (key_tuples n kcs) = complete_rows n kcs.
Proof.
  unfold key_tuples, complete_rows. induction kcs as [| xs kcs IH]; simpl.
  - induction n as [| n IHn]; simpl; [reflexivity | now rewrite IHn].
  - rewrite <- IH.
    generalize (fold_right (zip_with cons_key) (repeat (Some []) n) kcs).
    induction xs as [| x xs IHxs]; intros [| a acc]; simpl; try reflexivity.
    rewrite IHxs. now destruct x, a.
Qed.

Lemma groupby_Ok (df : DataFrame) (cols : list string)
  (kcs : list (list (option string))) :
  cols <> [] -> NoDup cols -> mapM (key_column df) cols = Ok kcs ->
  groupby df cols = Ok (key_tuples (len df) kcs).
Proof.
  intros Hne Hnd H. unfold groupby.
  destruct cols; [congruence |].
  now rewrite (NoDup_has_dup _ Hnd), H.
Qed.

(** No group is empty. *)
Lemma group_nonempty (ks : list (option key)) (k : key) :
  In (Some k) ks -> 1 <= List.length (group ks ks k).
Proof.
  unfold group. induction ks as [| o ks IH]; simpl; [tauto |].
  intros [-> | H].
  - simpl. rewrite (proj2 (key_eqb_eq k k) eq_refl). simpl. lia.
  - specialize (IH H). destruct (in_group k o); simpl; lia.
Qed.

Lemma group_keys_length (ks : list (option key)) :
  List.length (group_keys ks) <= List.length ks.
Proof.
  assert (Hd : forall l : list (option key), List.length (dropna l) <= List.length l).
  { induction l as [| [x |] l IH]; simpl; lia. }
  etransitivity; [| apply Hd].
  apply NoDup_incl_length; [apply group_keys_NoDup |].
  intros k Hk. now apply dropna_In, group_keys_In.
Qed.

(** X1.  The sum aggregation on any list of grouping columns: every value of
    column [Hasil] is the sum of one group of values of the value column, and
    the groups hold between them exactly the non-missing values over the
    rows whose key is complete.  For an int64 column the values of [Hasil]
    therefore add up to the sum over those rows; for a float64 column they
    are the sums the library computes of those same values. *)
Theorem sum_over_rows_with_complete_key (df : DataFrame) (cols : list string)
  (v : string) (kcs : list (list (option string))) (vals : numbers) :
  cols <> [] -> NoDup cols ->
  mapM (key_column df) cols = Ok kcs ->
  value_column df v = Ok vals ->
  exists r, compute df cols v Sum = Ok r /\
    match vals with
    | Ints xs =>
        exists groups : list (list num),
          map snd (res_rows r) = map (fun vs => Value (total vs)) groups /\
          Permutation (List.concat groups)
                      (take (complete_rows (len df) kcs) xs) /\
          hasil_total r = total (take (complete_rows (len df) kcs) xs)
    | Floats xs =>
        exists groups : list (list flt),
          map snd (res_rows r) = map (fun vs => FloatValue (flt_sum vs)) groups /\
          Permutation (List.concat groups)
                      (dropna (take (complete_rows (len df) kcs) xs))
    end.
Proof.
  intros Hne Hnd Hk Hv. unfold compute, groupby_agg.
  rewrite (groupby_Ok df cols kcs Hne Hnd Hk), Hv. cbn [bind].
  set (ks := key_tuples (len df) kcs).
  assert (Hp : map (@present key) ks = complete_rows (len df) kcs)
    by apply key_tuples_present.
  eexists. split; [reflexivity |]. unfold hasil_total. cbn [res_rows].
  rewrite !map_map. cbn [snd].
  destruct vals as [xs | xs]; cbn [group_numbers reduce].
  - exists (map (group ks xs) (group_keys ks)).
    split; [now rewrite map_map |].
    split; [rewrite <- Hp; apply groups_perm;
            [apply group_keys_NoDup | intros k; apply group_keys_In] |].
    rewrite <- Hp. apply total_groups.
  - exists (map (fun k => dropna (group ks xs k)) (group_keys ks)).
    split; [now rewrite map_map |].
    rewrite <- Hp. apply dropna_groups.
Qed.

(** X2.  The count aggregation on any list of grouping columns, none named
    [Hasil]: the counts add up to the number of rows whose key is complete,
    every row of the result counts at least one row of the dataset and has
    one key component per grouping column, and the result has no more rows
    than the dataset. *)
Theorem count_over_rows_with_complete_key (df : DataFrame) (cols : list string)
  (v : string) (kcs : list (list (option string))) :
  cols <> [] -> NoDup cols -> ~ In "Hasil" cols ->
  mapM (key_column df) cols = Ok kcs ->
  exists r, compute df cols v Count = Ok r /\
    hasil_rows r = count_true (complete_rows (len df) kcs) /\
    Forall (fun row => exists n, snd row = Rows n /\ 1 <= n /\
                         List.length (fst row) = List.length cols)
           (res_rows r) /\
    List.length (res_rows r) <= len df.
Proof.
  intros Hne Hnd Hh Hk. unfold compute, groupby_size.
  rewrite (groupby_Ok df cols kcs Hne Hnd Hk). cbn [bind].
  rewrite (mem_not_In _ _ Hh).
  set (ks := key_tuples (len df) kcs).
  eexists. split; [reflexivity |]. cbn [res_rows]. split; [| split].
  - unfold hasil_rows. cbn [res_rows]. rewrite map_map. cbn [snd].
    rewrite size_groups. unfold ks at 1. rewrite key_tuples_present.
    apply take_count_true. rewrite <- key_tuples_present.
    unfold ks. now rewrite length_map.
  - apply Forall_forall. intros row Hrow.
    apply in_map_iff in Hrow. destruct Hrow as [k [<- Hkin]].
    apply group_keys_In in Hkin.
    exists (List.length (group ks ks k)). cbn [fst snd].
    split; [reflexivity |]. split; [now apply group_nonempty |].
    pose proof (key_tuples_width (len df) kcs) as Hw.
    rewrite Forall_forall in Hw.
    rewrite (Hw _ Hkin k eq_refl). now apply mapM_length in Hk.
  - rewrite length_map.
    etransitivity; [apply group_keys_length | apply key_tuples_length].
Qed.

End SeveralColumns.

(** X1 at the dataset of the scenario, grouped by its region. *)
Lemma sum_over_rows_with_complete_key_region_sales :
  exists r, compute region_sales ["Region"] "Sales" Sum = Ok r /\
    hasil_total r = i64 60.
Proof.
  destruct (sum_over_rows_with_complete_key region_sales ["Region"] "Sales"
              [[Some "A"; Some "A"; Some "B"]]
              (Ints [i64 10; i64 20; i64 30]))
    as [r [Hr [groups [_ [_ Ht]]]]].
  - discriminate.
  - repeat constructor. intros [].
  - reflexivity.
  - reflexivity.
  - exists r. split; [exact Hr |]. rewrite Ht. reflexivity.
Defined.

(** X2 at the dataset with a missing region. *)
Lemma count_over_rows_with_complete_key_region_missing :
  exists r, compute region_missing ["Region"] "Sales" Count = Ok r /\
    hasil_rows r = 1.
Proof.
  destruct (count_over_rows_with_complete_key region_missing ["Region"] "Sales"
              [[Some "A"; None]])
    as [r [Hr [Hn _]]].
  - discriminate.
  - repeat constructor. intros [].
  - intros [E | []]. discriminate.
  - reflexivity.
  - exists r. split; [exact Hr |]. rewrite Hn. reflexivity.
Defined.

(* ===================================================================== *)
(** ** What the button answers *)
(* ===================================================================== *)

Section Answers.

Context {N : Numeric} {F : Floating}.

(** The computation on selections the widgets can deliver: distinct
    categorical grouping columns and a numeric value column. *)
Lemma compute_deliverable (df : DataFrame) (cols : list string) (v : string)
  (op : agg) :
  NoDup (columns df) -> cols <> [] -> NoDup cols ->
  incl cols (categorical_cols df) -> In v (numeric_cols df) ->
  if match op with Count => mem "Hasil" cols | _ => false end
  then compute df cols v op
       = Raise (ValueError "cannot insert Hasil, already exists")
  else exists r, compute df cols v op = Ok r /\ res_columns r = cols ++ ["Hasil"].
Proof.
  intros Hnd Hne Hcols Hin Hv.
  destruct (mapM_key_column df cols Hnd Hin) as [kcs Hk].
  destruct (value_column_numeric df v Hnd Hv) as [vs Hvs].
  pose proof (groupby_Ok df cols kcs Hne Hcols Hk) as Hg.
  destruct op; unfold compute, groupby_agg, groupby_size;
    rewrite Hg; cbn [bind]; try rewrite Hvs; cbn [bind];
    try (eexists; split; reflexivity).
  destruct (mem "Hasil" cols); [reflexivity |].
  eexists; split; reflexivity.
Qed.

(** X3.  On selections the widgets can deliver (distinct categorical grouping
    columns, at least one, and a numeric value column with a name), the
    button reports an error in one case only, a count by a column named
    [Hasil]; in every other case it stores a result whose columns are the
    grouping columns followed by [Hasil], with the configuration of the
    request. *)
Theorem button_fails_only_on_hasil (df : DataFrame) (cols : list string)
  (v : string) (op : agg) (st : session_state) :
  NoDup (columns df) -> cols <> [] -> NoDup cols ->
  incl cols (categorical_cols df) -> In v (numeric_cols df) -> truthy v = true ->
  (op = Count /\ In "Hasil" cols /\
   on_click df cols (Some v) op st
   = Ok (st, error (ValueError "cannot insert Hasil, already exists")))
  \/
  (~ (op = Count /\ In "Hasil" cols) /\
   exists r, on_click df cols (Some v) op st = Ok (stored r cols v op, success) /\
     res_columns r = cols ++ ["Hasil"]).
Proof.
  intros Hnd Hne Hcols Hin Hv Ht.
  pose proof (compute_deliverable df cols v op Hnd Hne Hcols Hin Hv) as H.
  unfold on_click. destruct cols as [| c cols]; [congruence |]. rewrite Ht.
  destruct op; cbn beta iota in H;
    try (right; split; [intros [E _]; discriminate |];
         destruct H as [r [-> Hr]]; exists r; split; [reflexivity | exact Hr]).
  destruct (mem "Hasil" (c :: cols)) eqn:Hm.
  - left. rewrite H. split; [reflexivity |]. split; [now apply mem_In | reflexivity].
  - right. split.
    + intros [_ Hh]. apply mem_In in Hh. congruence.
    + destruct H as [r [-> Hr]]. exists r. split; [reflexivity | exact Hr].
Qed.

(** X4.  The first press of the button with untouched widgets (the first
    categorical column, the first numeric column, the first operation): it
    stores the sum when the dataset has a categorical and a numeric column,
    and it answers with the warning when the dataset lacks one of the two. *)
Theorem first_press_with_defaults (df : DataFrame) (st : session_state) :
  NoDup (columns df) ->
  (forall c, In c (columns df) -> truthy c = true) ->
  let cols := default_group_by (categorical_cols df) in
  let v := default_value_col (numeric_cols df) in
  (categorical_cols df <> [] -> numeric_cols df <> [] ->
   exists r x, v = Some x /\
     compute df cols x Sum = Ok r /\
     on_click df cols v default_agg_type st = Ok (stored r cols x Sum, success)) /\
  (categorical_cols df = [] \/ numeric_cols df = [] ->
   on_click df cols v default_agg_type st = Ok (st, warning)).
Proof.
  intros Hnd Hnames cols v. subst cols v. split.
  - intros Hc Hn.
    destruct (categorical_cols df) as [| c cs] eqn:Ec; [congruence |].
    destruct (numeric_cols df) as [| x xs] eqn:En; [congruence |].
    assert (Hx : In x (numeric_cols df)) by (rewrite En; now left).
    assert (Hcin : incl [c] (categorical_cols df))
      by (intros y [<- | []]; rewrite Ec; now left).
    pose proof (compute_deliverable df [c] x Sum Hnd ltac:(discriminate)
                  ltac:(repeat constructor; intros []) Hcin Hx) as [r [Hr _]].
    exists r, x. split; [reflexivity |].
    cbn [default_group_by default_value_col hd_error]. split; [exact Hr |].
    unfold on_click.
    rewrite (Hnames x (select_dtypes_incl _ df x Hx)).
    change default_agg_type with Sum. now rewrite Hr.
  - intros [E | E]; rewrite E; simpl.
    + reflexivity.
    + unfold on_click. now destruct (default_group_by (categorical_cols df)).
Qed.

Lemma groupby_Ok_inv (df : DataFrame) (cols : list string)
  (ks : list (option key)) :
  groupby df cols = Ok ks ->
  cols <> [] /\ exists kcs, mapM (key_column df) cols = Ok kcs /\
    ks = key_tuples (len df) kcs.
Proof.
  unfold groupby. destruct cols as [| c cols]; [discriminate |].
  destruct (has_dup (c :: cols)); [discriminate |].
  intros H. apply bind_Ok in H. destruct H as [kcs [Hk H]].
  injection H as <-. split; [discriminate | now exists kcs].
Qed.

(** The columns and the key widths of a computed result. *)
Lemma compute_Ok_columns (df : DataFrame) (cols : list string) (v : string)
  (op : agg) (r : result_df) :
  compute df cols v op = Ok r ->
  cols <> [] /\ res_columns r = cols ++ ["Hasil"] /\
  Forall (fun row => List.length (fst row) = List.length cols) (res_rows r).
Proof.
  intros H.
  destruct (compute_keys df cols v op r H) as [ks [Hks Hkeys]].
  destruct (groupby_Ok_inv df cols ks Hks) as [Hne [kcs [Hk ->]]].
  split; [exact Hne |]. split.
  - revert H. unfold compute, groupby_agg, groupby_size. rewrite Hks. cbn [bind].
    destruct op;
      try (intros H; apply bind_Ok in H; destruct H as [vs [_ H]];
           now injection H as <-).
    destruct (mem "Hasil" cols); [discriminate |].
    intros H. now injection H as <-.
  - apply Forall_forall. intros row Hrow.
    assert (Hin : In (fst row) (result_keys r))
      by (unfold result_keys; now apply in_map).
    rewrite Hkeys in Hin. apply group_keys_In in Hin.
    pose proof (key_tuples_width (len df) kcs) as Hw.
    rewrite Forall_forall in Hw.
    rewrite (Hw _ Hin _ eq_refl). now apply mapM_length in Hk.
Qed.

Lemma on_click_coherent (df : DataFrame) (cols : list string)
  (v : option string) (op : agg) (st st' : session_state) (m : message) :
  coherent st -> on_click df cols v op st = Ok (st', m) -> coherent st'.
Proof.
  intros Hst. unfold on_click.
  destruct cols as [| c cols]; [intros H; now injection H as <- <- |].
  destruct v as [x |]; [| intros H; now injection H as <- <-].
  destruct (truthy x) eqn:Hx; [| intros H; now injection H as <- <-].
  destruct (compute df (c :: cols) x op) as [r | e |] eqn:Hc;
    intros H; try discriminate; injection H as <- <-; [| exact Hst].
  destruct (compute_Ok_columns _ _ _ _ _ Hc) as [Hne [Hcol Hw]].
  unfold coherent. simpl. repeat split; assumption.
Qed.

(** X5.  In every state a session can reach, the stored result and its
    configuration are there together or not at all, and when they are there
    the configuration names at least one grouping column and a value column,
    the columns of the result are the grouping columns followed by [Hasil],
    and every row of the result has one key component per grouping column. *)
Theorem session_state_is_coherent (st : session_state) :
  reachable st -> coherent st.
Proof.
  induction 1 as [| st st' df cols v op m _ IH Hclick].
  - exact I.
  - exact (on_click_coherent df cols v op st st' m IH Hclick).
Qed.

Lemma has_dup_app_single (l : list string) (x : string) :
  has_dup (l ++ [x]) = has_dup l || mem x l.
Proof.
  induction l as [| a l IH]; simpl; [reflexivity |].
  rewrite IH. unfold mem. rewrite existsb_app. simpl.
  rewrite (String.eqb_sym a x).
  destruct (existsb (String.eqb a) l), (String.eqb x a), (has_dup l),
           (existsb (String.eqb x) l); reflexivity.
Qed.

Lemma has_dup_NoDup (l : list string) : has_dup l = false -> NoDup l.
Proof.
  induction l as [| a l IH]; simpl; intros H; constructor.
  - apply orb_false_iff in H. destruct H as [H _].
    intros Hin. apply mem_In in Hin. congruence.
  - apply IH. now apply orb_false_iff in H.
Qed.

(** A stored configuration names distinct grouping columns, and none named
    [Hasil] when it is the configuration of a count. *)
Lemma on_click_config (df : DataFrame) (cols : list string)
  (v : option string) (op : agg) (st st' : session_state) (m : message) :
  (forall c, analysis_config st = Some c ->
     has_dup (group_by c) = false /\
     (agg_type c = Count -> mem "Hasil" (group_by c) = false)) ->
  on_click df cols v op st = Ok (st', m) ->
  forall c, analysis_config st' = Some c ->
    has_dup (group_by c) = false /\
    (agg_type c = Count -> mem "Hasil" (group_by c) = false).
Proof.
  intros Hst. unfold on_click.
  destruct cols as [| c0 cols]; [intros H; now injection H as <- <- |].
  destruct v as [x |]; [| intros H; now injection H as <- <-].
  destruct (truthy x) eqn:Hx; [| intros H; now injection H as <- <-].
  destruct (compute df (c0 :: cols) x op) as [r | e |] eqn:Hc;
    intros H; try discriminate; injection H as <- <-; [| exact Hst].
  intros c Ec. cbn [analysis_config] in Ec. injection Ec as <-.
  cbn [group_by agg_type]. split.
  - destruct (compute_keys _ _ _ _ _ Hc) as [ks [Hks _]].
    unfold groupby in Hks.
    destruct (has_dup (c0 :: cols)); [discriminate | reflexivity].
  - intros ->. unfold compute, groupby_size in Hc.
    apply bind_Ok in Hc. destruct Hc as [ks [_ Hc]].
    destruct (mem "Hasil" (c0 :: cols)); [discriminate | reflexivity].
Qed.

(** X6.  In every state a session can reach, showing the result never stops
    on a missing configuration or on an index out of range.  It stops in one
    case only: a result grouped by a column that is itself named [Hasil],
    by another operation than the count, has two columns of that name, and
    the table of the result is refused.  In every other case the panel is
    hidden only in the simple mode or before the first result; otherwise it
    shows the stored result, whose columns are distinct, with exactly two
    figures, every figure reads columns of the result only, and the bars
    always have a colour column. *)
Theorem result_panel_is_drawn (mode : analysis_mode) (st : session_state) :
  reachable st ->
  match result_panel mode st with
  | Hidden => mode = simple \/ analysis_result st = None
  | Drawn r figs =>
      analysis_result st = Some r /\ NoDup (res_columns r) /\
      List.length figs = 2 /\
      Forall (fun p => incl (plot_columns p) (res_columns r)) figs /\
      (forall x y title barmode, ~ In (px_bar x y None title barmode) figs)
  | DuplicateColumns =>
      mode = advanced /\
      exists c, analysis_config st = Some c /\
        In "Hasil" (group_by c) /\ agg_type c <> Count
  | MissingKey _ | IndexError => False
  end.
Proof.
  intros Hr.
  assert (Hc : coherent st /\
               forall c, analysis_config st = Some c ->
                 has_dup (group_by c) = false /\
                 (agg_type c = Count -> mem "Hasil" (group_by c) = false)).
  { induction Hr as [| st st' df cols v op m _ [IH1 IH2] Hclick].
    - split; [exact I | discriminate].
    - split.
      + exact (on_click_coherent df cols v op st st' m IH1 Hclick).
      + exact (on_click_config df cols v op st st' m IH2 Hclick). }
  destruct Hc as [Hc Hd].
  unfold result_panel, coherent in *.
  destruct (analysis_result st) as [r |]; [| now right].
  destruct mode; [now left |].
  destruct (analysis_config st) as [c |]; [| exact Hc].
  destruct Hc as [Hne [_ [Hcols _]]].
  destruct (Hd c eq_refl) as [Hdup Hcount].
  assert (Hhd : has_dup (res_columns r) = mem "Hasil" (group_by c))
    by (now rewrite Hcols, has_dup_app_single, Hdup).
  rewrite Hhd.
  destruct (mem "Hasil" (group_by c)) eqn:Hm.
  { split; [reflexivity |]. exists c. split; [reflexivity |].
    split; [now apply mem_In |]. intros E. specialize (Hcount E). congruence. }
  assert (Hnd : NoDup (res_columns r)) by (now apply has_dup_NoDup).
  assert (Hread : forall names,
            incl names ("Hasil" :: group_by c) -> incl names (res_columns r)).
  { intros names Hn x Hx. rewrite Hcols. apply in_app_iff.
    destruct (Hn x Hx) as [<- | Hg]; [right; now left | now left]. }
  clear Hhd Hd Hdup Hcount Hm.
  destruct (group_by c) as [| g [| g2 gs]] eqn:Eg; [congruence | |];
    cbn [List.length Nat.eqb nth_error Nat.ltb Nat.leb];
    (split; [reflexivity |]); (split; [exact Hnd |]);
    (split; [reflexivity |]); split.
  - apply Forall_cons; [| apply Forall_cons; [| apply Forall_nil]];
      apply Hread; intros x Hx; simpl in Hx |- *; intuition auto.
  - intros x y title barmode [H | [H | []]]; discriminate.
  - apply Forall_cons; [| apply Forall_cons; [| apply Forall_nil]];
      apply Hread; intros x Hx; simpl in Hx |- *; intuition auto.
  - intros x y title barmode [H | [H | []]]; discriminate.
Qed.

End Answers.

(** X3 at the dataset of the scenario. *)
Lemma button_fails_only_on_hasil_region_sales :
  exists r, on_click region_sales ["Region"] (Some "Sales") Mean no_result
            = Ok (stored r ["Region"] "Sales" Mean, success).
Proof.
  destruct (button_fails_only_on_hasil region_sales ["Region"] "Sales" Mean
              no_result) as [[E _] | [_ [r [Hr _]]]].
  - simpl. repeat constructor; simpl; intuition discriminate.
  - discriminate.
  - repeat constructor. intros [].
  - intros c [<- | []]. now left.
  - simpl. now left.
  - reflexivity.
  - discriminate E.
  - now exists r.
Defined.

(** X4 at the dataset of the scenario. *)
Lemma first_press_with_defaults_region_sales :
  exists r, on_click region_sales ["Region"] (Some "Sales") Sum no_result
            = Ok (stored r ["Region"] "Sales" Sum, success).
Proof.
  destruct (proj1 (first_press_with_defaults region_sales no_result
              ltac:(simpl; repeat constructor; simpl; intuition discriminate)
              ltac:(intros c [<- | [<- | []]]; reflexivity))
              ltac:(discriminate) ltac:(discriminate)) as [r [x [Hx [_ Hr]]]].
  injection Hx as <-. now exists r.
Defined.

(** The state after counting [region_sales] by region is reached by one
    press of the button. *)
Lemma previous_result_reachable : reachable previous_result.
Proof.
  apply (reach_click no_result previous_result region_sales ["Region"]
           (Some "Sales") Count success).
  - apply reach_start.
  - reflexivity.
Defined.

(** X5 at the state after counting [region_sales] by region. *)
Lemma session_state_is_coherent_previous_result : coherent previous_result.
Proof. exact (session_state_is_coherent previous_result previous_result_reachable). Defined.

(** The state after summing [hasil_sales] by its column [Hasil] is reached
    by one press of the button. *)
Lemma hasil_result_reachable : reachable hasil_result.
Proof.
  apply (reach_click no_result hasil_result hasil_sales ["Hasil"]
           (Some "Sales") Sum success).
  - apply reach_start.
  - reflexivity.
Defined.

(** X6 at the state after counting [region_sales] by region, where the
    result is shown, and at the state after summing [hasil_sales] by its
    column [Hasil], where its table is refused. *)
Lemma result_panel_is_drawn_previous_result :
  (exists r figs, result_panel advanced previous_result = Drawn r figs /\
     List.length figs = 2) /\
  result_panel advanced hasil_result = DuplicateColumns /\
  exists c, analysis_config hasil_result = Some c /\ In "Hasil" (group_by c).
Proof.
  pose proof (result_panel_is_drawn advanced previous_result
                previous_result_reachable) as H.
  pose proof (result_panel_is_drawn advanced hasil_result
                hasil_result_reachable) as H'.
  split; [| split; [reflexivity |]].
  - destruct (result_panel advanced previous_result) as [| r figs | | |];
      try contradiction.
    + destruct H as [H | H]; discriminate.
    + exists r, figs. split; [reflexivity | apply H].
    + destruct H as [_ [c [Ec [Hin _]]]]. injection Ec as <-.
      destruct Hin as [E | []]. discriminate E.
  - change (result_panel advanced hasil_result) with DuplicateColumns in H'.
    destruct H' as [_ [c [Ec [Hin _]]]]. now exists c.
Defined.

(* ===================================================================== *)
(** ** Selecting rows *)
(* ===================================================================== *)

Lemma take_map {A B} (f : A -> B) (mask : list bool) (xs : list A) :
  take mask (map f xs) = map f (take mask xs).
Proof.
  revert xs. induction mask as [| b mask IH]; intros [| x xs]; simpl;
    try reflexivity.
  destruct b; simpl; now rewrite IH.
Qed.

Lemma take_nil {A} (mask : list bool) : take mask (@nil A) = [].
Proof. now destruct mask. Qed.

Lemma take_compose {A} (m1 m2 : list bool) (xs : list A) :
  take m2 (take m1 xs) = take (compose m1 m2) xs.
Proof.
  revert m2 xs. induction m1 as [| b m1 IH]; intros m2 xs.
  - simpl. now destruct m2.
  - destruct xs as [| x xs].
    + simpl (take (b :: m1) []). now rewrite !take_nil.
    + destruct b; simpl.
      * destruct m2 as [| c m2]; simpl; [reflexivity |].
        destruct c; now rewrite IH.
      * apply IH.
Qed.

Lemma compose_length (m1 m2 : list bool) :
  List.length m2 = count_true m1 -> List.length (compose m1 m2) = List.length m1.
Proof.
  unfold count_true. revert m2.
  induction m1 as [| b m1 IH]; intros m2 H; simpl in *; [reflexivity |].
  destruct b; simpl in *.
  - destruct m2 as [| c m2]; simpl in *; [discriminate |].
    f_equal. apply IH. congruence.
  - f_equal. now apply IH.
Qed.

Lemma take_trues {A} (mask : list bool) (xs : list A) :
  Forall (fun b => b = true) mask -> List.length xs = List.length mask ->
  take mask xs = xs.
Proof.
  intros H. apply take_all. apply forallb_forall. intros b Hb.
  rewrite Forall_forall in H. now apply H.
Qed.

Lemma take_self (mask : list bool) :
  Forall (fun b => b = true) (take mask mask).
Proof.
  induction mask as [| b mask IH]; simpl; [constructor |].
  destruct b; [constructor |]; auto.
Qed.

Lemma take_Forall {A} (P : A -> Prop) (mask : list bool) (xs : list A) :
  Forall P xs -> Forall P (take mask xs).
Proof.
  intros H. revert mask. induction H as [| x xs Hx _ IH]; intros [| b mask];
    simpl; try constructor.
  destruct b; [constructor |]; auto.
Qed.

Lemma take_map_pass {A} (p : A -> bool) (xs : list A) :
  Forall (fun x => p x = true) (take (map p xs) xs).
Proof.
  induction xs as [| x xs IH]; simpl; [constructor |].
  destruct (p x) eqn:E; [constructor |]; auto.
Qed.

Lemma take_repeat {A} (c : A) (mask : list bool) :
  take mask (repeat c (List.length mask)) = repeat c (count_true mask).
Proof.
  unfold count_true. induction mask as [| b mask IH]; simpl; [reflexivity |].
  destruct b; simpl; now rewrite IH.
Qed.

Lemma zip_with_take {A B C} (f : A -> B -> C) (mask : list bool)
  (l1 : list A) (l2 : list B) :
  zip_with f (take mask l1) (take mask l2) = take mask (zip_with f l1 l2).
Proof.
  assert (Hnil : forall l : list A, zip_with f l (@nil B) = [])
    by (now intros []).
  revert l1 l2. induction mask as [| b mask IH]; intros [| a l1] [| c l2];
    simpl; try reflexivity.
  - destruct b; [reflexivity | apply Hnil].
  - destruct b; simpl; now rewrite IH.
Qed.

Lemma zip_with_andb_swap (a b c : list bool) :
  zip_with andb a (zip_with andb b c) = zip_with andb b (zip_with andb a c).
Proof.
  revert b c. induction a as [| x a IH]; intros [| y b] [| z c]; simpl;
    try reflexivity.
  rewrite IH. f_equal. now destruct x, y, z.
Qed.

Lemma zip_with_andb_assoc (a b c : list bool) :
  zip_with andb (zip_with andb a b) c = zip_with andb a (zip_with andb b c).
Proof.
  revert b c. induction a as [| x a IH]; intros [| y b] [| z c]; simpl;
    try reflexivity.
  rewrite IH. f_equal. now destruct x, y, z.
Qed.

Lemma zip_with_andb_trues_l (n : nat) (m : list bool) :
  List.length m = n -> zip_with andb (repeat true n) m = m.
Proof.
  revert n. induction m as [| b m IH]; intros [| n] H; simpl in *;
    try discriminate; try reflexivity.
  rewrite IH by congruence. reflexivity.
Qed.

Lemma zip_with_andb_trues_r (n : nat) (m : list bool) :
  List.length m = n -> zip_with andb m (repeat true n) = m.
Proof.
  revert n. induction m as [| b m IH]; intros [| n] H; simpl in *;
    try discriminate; try reflexivity.
  rewrite IH by congruence. now rewrite andb_true_r.
Qed.

Lemma zip_with_length {A B C} (f : A -> B -> C) (l1 : list A) (l2 : list B) :
  List.length l1 = List.length l2 ->
  List.length (zip_with f l1 l2) = List.length l1.
Proof.
  revert l2. induction l1 as [| a l1 IH]; intros [| b l2] H; simpl in *;
    try discriminate; try reflexivity.
  f_equal. apply IH. congruence.
Qed.

Lemma compose_take_andb (m a : list bool) :
  List.length a = List.length m ->
  compose m (take m a) = zip_with andb m a.
Proof.
  revert a. induction m as [| b m IH]; intros [| c a] H; simpl in *;
    try discriminate; try reflexivity.
  destruct b; simpl; rewrite IH by congruence; reflexivity.
Qed.

Lemma count_true_le (mask : list bool) : count_true mask <= List.length mask.
Proof.
  unfold count_true. induction mask as [| b mask IH]; simpl; [lia |].
  destruct b; simpl; lia.
Qed.

Section Rows.

Context {N : Numeric} {F : Floating}.

Lemma astype_str_length (d : data) : List.length (astype_str d) = size d.
Proof. destruct d; simpl; apply length_map. Qed.

Lemma astype_str_take (mask : list bool) (d : data) :
  astype_str (take_data mask d) = take mask (astype_str d).
Proof. destruct d; simpl; now rewrite take_map. Qed.

Lemma size_take_data (mask : list bool) (d : data) :
  size d = List.length mask -> size (take_data mask d) = count_true mask.
Proof. destruct d; simpl; apply take_count_true. Qed.

Lemma getitem_take_rows (mask : list bool) (df : DataFrame) (col : string)
  (s : Series) :
  getitem df col = Ok s ->
  getitem (take_rows mask df) col
  = Ok {| name := name s; values := take_data mask (values s) |}.
Proof.
  induction df as [| c df IH]; simpl; [discriminate |].
  destruct (String.eqb (name c) col); [| exact IH].
  intros H. now injection H as ->.
Qed.

Lemma take_rows_compose (m1 m2 : list bool) (df : DataFrame) :
  take_rows m2 (take_rows m1 df) = take_rows (compose m1 m2) df.
Proof.
  unfold take_rows. rewrite map_map. apply map_ext. intros s. simpl.
  f_equal. destruct (values s); simpl; now rewrite take_compose.
Qed.

Lemma take_rows_trues (mask : list bool) (df : DataFrame) :
  rectangular df -> List.length mask = len df ->
  Forall (fun b => b = true) mask -> take_rows mask df = df.
Proof.
  intros Hrect Hlen Hall. unfold take_rows.
  rewrite <- (map_id df) at 2. apply map_ext_in. intros s Hs.
  specialize (Hrect s Hs). destruct s as [nm d]. simpl in *. f_equal.
  destruct d; simpl in *; f_equal; apply take_trues; congruence.
Qed.

Lemma len_take_rows (mask : list bool) (df : DataFrame) :
  List.length mask = len df -> len (take_rows mask df) = count_true mask.
Proof.
  destruct df as [| s df]; simpl.
  - intros H. now destruct mask.
  - intros H. now apply size_take_data.
Qed.

Lemma take_rows_rectangular (mask : list bool) (df : DataFrame) :
  rectangular df -> List.length mask = len df -> rectangular (take_rows mask df).
Proof.
  intros Hrect Hlen s Hs. rewrite (len_take_rows mask df Hlen).
  unfold take_rows in Hs. apply in_map_iff in Hs. destruct Hs as [s0 [<- Hs0]].
  simpl. apply size_take_data. rewrite (Hrect s0 Hs0). now symmetry.
Qed.

Lemma In_columns_getitem (df : DataFrame) (col : string) :
  In col (columns df) -> exists s, getitem df col = Ok s.
Proof.
  unfold columns. induction df as [| c df IH]; simpl; [tauto |].
  intros H. destruct (String.eqb_spec (name c) col) as [E | E].
  - now exists c.
  - destruct H as [H | H]; [contradiction | now apply IH].
Qed.

Lemma column_mask_length (df : DataFrame) (f : string * list string) :
  rectangular df -> (active (snd f) = true -> In (fst f) (columns df)) ->
  List.length (column_mask df f) = len df.
Proof.
  intros Hrect Hcol. unfold column_mask.
  destruct (active (snd f)); [| apply repeat_length].
  destruct (In_columns_getitem df (fst f) (Hcol eq_refl)) as [s Hs].
  rewrite Hs, length_map, astype_str_length.
  apply Hrect. now apply getitem_In in Hs.
Qed.

Lemma filters_mask_length (df : DataFrame) (filters : list (string * list string)) :
  rectangular df ->
  Forall (fun f => active (snd f) = true -> In (fst f) (columns df)) filters ->
  List.length (filters_mask df filters) = len df.
Proof.
  intros Hrect H. unfold filters_mask.
  induction H as [| f filters Hf _ IH]; simpl; [apply repeat_length |].
  rewrite zip_with_length; rewrite (column_mask_length df f Hrect Hf); congruence.
Qed.

(** Filtering an already selected part of [df] selects further. *)
Lemma apply_filters_mask (df : DataFrame) (filters : list (string * list string)) :
  rectangular df ->
  Forall (fun f => active (snd f) = true -> In (fst f) (columns df)) filters ->
  forall m, List.length m = len df ->
    apply_filters (take_rows m df) filters
    = Ok (take_rows (zip_with andb m (filters_mask df filters)) df).
Proof.
  intros Hrect H.
  induction H as [| [col vals] filters Hf Hrest IH]; intros m Hm.
  - simpl. unfold filters_mask. simpl.
    now rewrite zip_with_andb_trues_r.
  - pose proof (column_mask_length df (col, vals) Hrect Hf) as Hlen.
    pose proof (filters_mask_length df filters Hrect Hrest) as Hlen'.
    cbn [apply_filters]. unfold filters_mask. cbn [fold_right].
    fold (filters_mask df filters).
    rewrite <- zip_with_andb_assoc.
    unfold column_mask in *. cbn [fst snd] in *. fold (active vals).
    destruct (active vals) eqn:Ea.
    + destruct (In_columns_getitem df col (Hf eq_refl)) as [s Hs].
      rewrite Hs in *. rewrite (getitem_take_rows m df col s Hs). cbn [bind values].
      rewrite astype_str_take, <- take_map, take_rows_compose.
      rewrite compose_take_andb by congruence.
      apply IH. rewrite zip_with_length; congruence.
    + rewrite zip_with_andb_trues_r by exact Hm. now apply IH.
Qed.

Lemma filters_mask_perm (df : DataFrame) (f1 f2 : list (string * list string)) :
  Permutation f1 f2 -> filters_mask df f1 = filters_mask df f2.
Proof.
  unfold filters_mask. induction 1; simpl.
  - reflexivity.
  - now f_equal.
  - apply zip_with_andb_swap.
  - congruence.
Qed.

(** X7.  The filters are conjunctive.  On a dataset whose filtered columns
    exist, the filters keep exactly the rows that every active filter lets
    through (a filter with [Semua] or with no selection lets every row
    through), and the order in which the filters are applied does not
    matter. *)
Theorem filters_are_conjunctive (df : DataFrame)
  (filters : list (string * list string)) :
  rectangular df ->
  Forall (fun f => active (snd f) = true -> In (fst f) (columns df)) filters ->
  apply_filters df filters = Ok (take_rows (filters_mask df filters) df) /\
  forall filters', Permutation filters filters' ->
    apply_filters df filters' = apply_filters df filters.
Proof.
  intros Hrect H.
  assert (Hall : forall fs,
            Forall (fun f => active (snd f) = true -> In (fst f) (columns df)) fs ->
            apply_filters df fs = Ok (take_rows (filters_mask df fs) df)).
  { intros fs Hfs.
    pose proof (apply_filters_mask df fs Hrect Hfs (repeat true (len df))
                  (repeat_length _ _)) as E.
    rewrite take_rows_trues in E;
      [| exact Hrect | apply repeat_length
       | apply Forall_forall; intros b Hb; now apply repeat_spec in Hb].
    rewrite zip_with_andb_trues_l in E
      by (now apply filters_mask_length).
    exact E. }
  split; [now apply Hall |].
  intros filters' Hp.
  rewrite (Hall filters H), (Hall filters').
  - now rewrite (filters_mask_perm df filters filters' Hp).
  - rewrite Forall_forall in *. intros f Hf. apply H.
    now apply (Permutation_in _ (Permutation_sym Hp)).
Qed.

End Rows.

(* ===================================================================== *)
(** ** Filtering and searching again *)
(* ===================================================================== *)

Lemma mapM_map {A B C} (f : B -> result C) (g : A -> B) (l : list A) :
  mapM f (map g l) = mapM (fun a => f (g a)) l.
Proof. induction l as [| a l IH]; simpl; [reflexivity | now rewrite IH]. Qed.

Lemma str_contains_Ok (q : string) (xs : list string) (c : list bool) :
  str_contains q xs = Ok c ->
  exists r, Regex.compile q = Regex.Pattern r /\
    forallb Regex.ascii_text xs = true /\ c = map (Regex.search r) xs.
Proof.
  unfold str_contains. destruct (Regex.compile q) as [r | |]; try discriminate.
  destruct (forallb Regex.ascii_text xs); try discriminate.
  intros H. injection H as <-. now exists r.
Qed.

Lemma str_contains_length (q : string) (xs : list string) (c : list bool) :
  str_contains q xs = Ok c -> List.length c = List.length xs.
Proof.
  intros H. apply str_contains_Ok in H. destruct H as [r [_ [_ ->]]].
  apply length_map.
Qed.

Lemma forallb_take {A} (p : A -> bool) (mask : list bool) (xs : list A) :
  forallb p xs = true -> forallb p (take mask xs) = true.
Proof.
  revert mask. induction xs as [| x xs IH]; intros [| b mask] H; simpl in *;
    try reflexivity.
  apply andb_true_iff in H. destruct H as [Hx H].
  destruct b; simpl; [rewrite Hx |]; now apply IH.
Qed.

Lemma str_contains_take (q : string) (mask : list bool) (xs : list string)
  (c : list bool) :
  str_contains q xs = Ok c -> str_contains q (take mask xs) = Ok (take mask c).
Proof.
  intros H. apply str_contains_Ok in H. destruct H as [r [Hr [Ha ->]]].
  unfold str_contains. rewrite Hr, (forallb_take _ mask xs Ha).
  now rewrite take_map.
Qed.

Lemma any_axis1_length (n : nat) (cols : list (list bool)) :
  Forall (fun c => List.length c = n) cols -> List.length (any_axis1 n cols) = n.
Proof.
  unfold any_axis1. induction 1 as [| c cols Hc _ IH]; simpl.
  - apply repeat_length.
  - rewrite zip_with_length; congruence.
Qed.

Lemma any_axis1_take (mask : list bool) (cols : list (list bool)) :
  any_axis1 (count_true mask) (map (take mask) cols)
  = take mask (any_axis1 (List.length mask) cols).
Proof.
  unfold any_axis1. induction cols as [| c cols IH]; simpl.
  - symmetry. apply take_repeat.
  - now rewrite IH, zip_with_take.
Qed.

Section Again.

Context {N : Numeric} {F : Floating}.

Lemma search_mask_columns (df : DataFrame) (q : string) (mask : list bool) :
  search_mask df q = Ok mask ->
  (len df = 0 /\ mask = []) \/
  exists cols,
    Forall2 (fun s c => str_contains q (astype_str (values s)) = Ok c) df cols /\
    mask = any_axis1 (len df) cols.
Proof.
  unfold search_mask. destruct (Nat.eqb_spec (len df) 0) as [E | E].
  - intros H. injection H as <-. now left.
  - intros H. apply bind_Ok in H. destruct H as [cols [Hc H]].
    injection H as <-. right. exists cols.
    split; [now apply mapM_Forall2 | reflexivity].
Qed.

Lemma search_mask_length (df : DataFrame) (q : string) (mask : list bool) :
  rectangular df -> search_mask df q = Ok mask -> List.length mask = len df.
Proof.
  intros Hrect H.
  destruct (search_mask_columns df q mask H) as [[E ->] | [cols [Hc ->]]];
    [now rewrite E |].
  apply any_axis1_length.
  assert (Hall : forall s, In s df -> size (values s) = len df) by exact Hrect.
  clear H Hrect. revert Hall. generalize (len df) as n.
  induction Hc as [| s c df cols Hsc _ IH]; intros n Hall; constructor.
  - apply str_contains_length in Hsc.
    rewrite Hsc, astype_str_length. apply Hall. now left.
  - apply IH. intros s' Hs'. apply Hall. now right.
Qed.

(** The filters return a selection of the rows. *)
Lemma apply_filters_selection (filters : list (string * list string)) :
  forall df d, rectangular df -> apply_filters df filters = Ok d ->
    exists m, List.length m = len df /\ d = take_rows m df.
Proof.
  induction filters as [| [col vals] filters IH]; intros df d Hrect H;
    cbn [apply_filters] in H.
  - injection H as <-. exists (repeat true (len df)).
    split; [apply repeat_length |]. symmetry.
    apply take_rows_trues; [exact Hrect | apply repeat_length |].
    apply Forall_forall. intros b Hb. now apply repeat_spec in Hb.
  - destruct (negb (mem "Semua" vals) && negb (Nat.eqb (List.length vals) 0)).
    + apply bind_Ok in H. destruct H as [s [Hs H]].
      set (m1 := map (fun x => mem x vals) (astype_str (values s))) in *.
      assert (Hm1 : List.length m1 = len df).
      { unfold m1. rewrite length_map, astype_str_length.
        apply Hrect. now apply getitem_In in Hs. }
      destruct (IH _ d (take_rows_rectangular m1 df Hrect Hm1) H) as [m2 [Hm2 ->]].
      exists (compose m1 m2). split.
      * rewrite compose_length; [exact Hm1 |].
        rewrite Hm2. now apply len_take_rows.
      * apply take_rows_compose.
    + now apply IH.
Qed.

(** The search returns a selection of the rows. *)
Lemma search_rows_selection (df d : DataFrame) (q : string) :
  rectangular df -> search_rows df q = Ok d ->
  exists m, List.length m = len df /\ d = take_rows m df.
Proof.
  intros Hrect. unfold search_rows. destruct (truthy q).
  - intros H. apply bind_Ok in H. destruct H as [mask [Hm H]].
    injection H as <-. exists mask.
    split; [now apply search_mask_length with q | reflexivity].
  - intros H. injection H as <-. exists (repeat true (len df)).
    split; [apply repeat_length |]. symmetry.
    apply take_rows_trues; [exact Hrect | apply repeat_length |].
    apply Forall_forall. intros b Hb. now apply repeat_spec in Hb.
Qed.

(** X8.  What the filters and the search return is a selection of the rows
    of the dataset: some rows are dropped as a whole, the others are kept as
    they are and in their order.  The result has the columns of the dataset
    with their names and dtypes, it is rectangular, and it has no more rows
    than the dataset. *)
Theorem display_selects_rows (df d : DataFrame)
  (filters : list (string * list string)) (search : string) :
  rectangular df -> display df filters search = Ok d ->
  exists mask, List.length mask = len df /\
    d = take_rows mask df /\
    shape d = shape df /\ rectangular d /\
    len d = count_true mask /\ len d <= len df.
Proof.
  intros Hrect H. unfold display in H.
  apply bind_Ok in H. destruct H as [d1 [H1 H2]].
  destruct (apply_filters_selection filters df d1 Hrect H1) as [m1 [Hm1 ->]].
  pose proof (take_rows_rectangular m1 df Hrect Hm1) as Hrect1.
  destruct (search_rows_selection _ d search Hrect1 H2) as [m2 [Hm2 ->]].
  rewrite (len_take_rows m1 df Hm1) in Hm2.
  assert (Hlen : List.length (compose m1 m2) = len df)
    by (rewrite compose_length; assumption).
  exists (compose m1 m2). rewrite take_rows_compose.
  split; [exact Hlen |]. split; [reflexivity |].
  split; [apply take_rows_shape |].
  split; [now apply take_rows_rectangular |].
  rewrite (len_take_rows _ df Hlen). split; [reflexivity |].
  rewrite <- Hlen. apply count_true_le.
Qed.

Lemma passes_take_rows (mask : list bool) (df : DataFrame)
  (f : string * list string) :
  passes df f -> passes (take_rows mask df) f.
Proof.
  intros H Ha. destruct (H Ha) as [s [Hs Hall]].
  exists {| name := name s; values := take_data mask (values s) |}.
  split; [exact (getitem_take_rows mask df _ s Hs) |].
  cbn [values]. rewrite astype_str_take. now apply take_Forall.
Qed.

(** After the filters every row passes every filter. *)
Lemma apply_filters_passes (filters : list (string * list string)) :
  forall df d, rectangular df -> apply_filters df filters = Ok d ->
    Forall (passes d) filters.
Proof.
  induction filters as [| [col vals] filters IH]; intros df d Hrect H;
    [constructor |].
  cbn [apply_filters] in H. fold (active vals) in H.
  destruct (active vals) eqn:Ea.
  - apply bind_Ok in H. destruct H as [s [Hs H]].
    set (m1 := map (fun x => mem x vals) (astype_str (values s))) in *.
    assert (Hm1 : List.length m1 = len df).
    { unfold m1. rewrite length_map, astype_str_length.
      apply Hrect. now apply getitem_In in Hs. }
    pose proof (take_rows_rectangular m1 df Hrect Hm1) as Hrect1.
    constructor; [| now apply IH with (take_rows m1 df)].
    destruct (apply_filters_selection filters _ d Hrect1 H) as [m2 [_ ->]].
    apply passes_take_rows. intros _.
    exists {| name := name s; values := take_data m1 (values s) |}.
    split; [exact (getitem_take_rows m1 df _ s Hs) |].
    cbn [values snd]. rewrite astype_str_take. apply take_map_pass.
  - constructor; [| now apply IH with df].
    intros Ha. cbn [snd] in Ha. congruence.
Qed.

(** Filters that every row passes change nothing. *)
Lemma apply_filters_fixed (filters : list (string * list string)) (d : DataFrame) :
  rectangular d -> Forall (passes d) filters -> apply_filters d filters = Ok d.
Proof.
  intros Hrect H. induction H as [| [col vals] filters Hf _ IH]; [reflexivity |].
  cbn [apply_filters]. fold (active vals).
  destruct (active vals) eqn:Ea; [| exact IH].
  destruct (Hf Ea) as [s [Hs Hall]]. cbn [fst snd] in *.
  rewrite Hs. cbn [bind]. rewrite take_rows_trues; [exact IH | exact Hrect | |].
  - rewrite length_map, astype_str_length.
    apply Hrect. now apply getitem_In in Hs.
  - apply Forall_forall. intros b Hb. apply in_map_iff in Hb.
    destruct Hb as [x [<- Hx]]. rewrite Forall_forall in Hall. now apply Hall.
Qed.

Lemma count_true_0 {A} (mask : list bool) (xs : list A) :
  count_true mask = 0 -> take mask xs = [].
Proof.
  unfold count_true. revert xs.
  induction mask as [| b mask IH]; intros [| x xs] H; simpl in *;
    try reflexivity.
  destruct b; [discriminate | now apply IH].
Qed.

(** Searching the rows the search kept keeps them all. *)
Lemma search_rows_fixed (df d : DataFrame) (q : string) :
  rectangular df -> search_rows df q = Ok d -> search_rows d q = Ok d.
Proof.
  intros Hrect. unfold search_rows. destruct (truthy q); [| intros H; now injection H as <-].
  intros H. apply bind_Ok in H. destruct H as [mask [Hm H]]. injection H as <-.
  pose proof (search_mask_length df q mask Hrect Hm) as Hlen.
  assert (Hagain : search_mask (take_rows mask df) q = Ok (take mask mask)).
  { unfold search_mask at 1. rewrite (len_take_rows mask df Hlen).
    destruct (Nat.eqb_spec (count_true mask) 0) as [E0 | E0];
      [now rewrite (count_true_0 mask mask E0) |].
    destruct (search_mask_columns df q mask Hm) as [[E _] | [cols [Hcols Emask]]].
    { exfalso. apply E0. pose proof (count_true_le mask). lia. }
    unfold take_rows. rewrite mapM_map. cbn [values].
    assert (Hc : mapM (fun s => str_contains q (astype_str (take_data mask (values s)))) df
                 = Ok (map (take mask) cols)).
    { clear - Hcols. induction Hcols as [| s c df' cols' Hsc _ IH]; [reflexivity |].
      cbn [mapM map]. rewrite astype_str_take, (str_contains_take q mask _ c Hsc).
      cbn [bind]. now rewrite IH. }
    rewrite Hc. cbn [bind]. f_equal.
    rewrite any_axis1_take, Hlen. now rewrite <- Emask. }
  rewrite Hagain. cbn [bind]. f_equal.
  apply take_rows_trues.
  - now apply take_rows_rectangular.
  - rewrite (len_take_rows mask df Hlen). now apply take_count_true.
  - apply take_self.
Qed.

(** X9.  Filtering and searching are idempotent: applying the same filters
    and the same search to what they returned returns it unchanged. *)
Theorem display_is_idempotent (df d : DataFrame)
  (filters : list (string * list string)) (search : string) :
  rectangular df -> display df filters search = Ok d ->
  display d filters search = Ok d.
Proof.
  intros Hrect H. unfold display in *.
  apply bind_Ok in H. destruct H as [d1 [H1 H2]].
  destruct (apply_filters_selection filters df d1 Hrect H1) as [m1 [Hm1 E1]].
  assert (Hrect1 : rectangular d1)
    by (rewrite E1; now apply take_rows_rectangular).
  pose proof (apply_filters_passes filters df d1 Hrect H1) as Hpass.
  destruct (search_rows_selection d1 d search Hrect1 H2) as [m2 [Hm2 E2]].
  assert (Hrect2 : rectangular d)
    by (rewrite E2; now apply take_rows_rectangular).
  rewrite (apply_filters_fixed filters d Hrect2).
  - cbn [bind]. now apply search_rows_fixed with d1.
  - rewrite E2. eapply Forall_impl; [| exact Hpass].
    intros f. apply passes_take_rows.
Qed.




(** X10.  Filters that are all on [Semua] or without any selection, with an
    empty search text, return the dataset as it is; this is the case of the
    filters before any choice of the user. *)
Theorem untouched_filters_change_nothing (df : DataFrame) :
  (forall filters, Forall (fun f => active (snd f) = false) filters ->
     display df filters EmptyString = Ok df) /\
  (forall categorical_cols,
     display df (default_filters categorical_cols) EmptyString = Ok df).
Proof.
  assert (H : forall filters, Forall (fun f => active (snd f) = false) filters ->
                display df filters EmptyString = Ok df).
  { intros filters Hf. unfold display.
    assert (E : apply_filters df filters = Ok df).
    { induction Hf as [| [col vals] filters Ha _ IH]; [reflexivity |].
      cbn [apply_filters]. fold (active vals). cbn [snd] in Ha. now rewrite Ha. }
    now rewrite E. }
  split; [exact H |].
  intros cats. apply H. unfold default_filters.
  apply Forall_forall. intros f Hf. apply in_map_iff in Hf.
  now destruct Hf as [c [<- _]].
Qed.

End Again.

(* ===================================================================== *)
(** ** The charts of the simple mode *)
(* ===================================================================== *)




(** X7 at the dataset of the scenario, filtered on region [A]. *)
Lemma filters_are_conjunctive_region_sales :
  apply_filters region_sales [("Region", ["A"])]
  = Ok [ {| name := "Region"; values := Object [Some "A"; Some "A"] |};
         {| name := "Sales"; values := Int64 [i64 10; i64 20] |} ].
Proof.
  rewrite (proj1 (filters_are_conjunctive region_sales [("Region", ["A"])]
                    region_sales_rectangular
                    ltac:(repeat constructor; intros _; simpl; now left))).
  reflexivity.
Defined.

(** X8 at the dataset of the scenario, filtered on region [A]. *)
Lemma display_selects_rows_region_sales :
  exists mask, List.length mask = 3 /\
    display region_sales [("Region", ["A"])] EmptyString
    = Ok (take_rows mask region_sales).
Proof.
  destruct (display_selects_rows region_sales
              [ {| name := "Region"; values := Object [Some "A"; Some "A"] |};
                {| name := "Sales"; values := Int64 [i64 10; i64 20] |} ]
              [("Region", ["A"])] EmptyString
              region_sales_rectangular eq_refl) as [mask [Hlen [E _]]].
  exists mask. split; [exact Hlen |]. now rewrite <- E.
Defined.

(** X9 at the dataset of the scenario, filtered on region [A]. *)
Lemma display_is_idempotent_region_sales :
  let d := [ {| name := "Region"; values := Object [Some "A"; Some "A"] |};
             {| name := "Sales"; values := Int64 [i64 10; i64 20] |} ] in
  display region_sales [("Region", ["A"])] EmptyString = Ok d /\
  display d [("Region", ["A"])] EmptyString = Ok d.
Proof.
  intros d. split; [reflexivity |].
  exact (display_is_idempotent region_sales d [("Region", ["A"])] EmptyString
           region_sales_rectangular eq_refl).
Defined.

(** X10 at the dataset of the scenario, with a filter without selection. *)
Lemma untouched_filters_change_nothing_region_sales :
  display region_sales [("Region", [])] EmptyString = Ok region_sales.
Proof.
  apply (proj1 (untouched_filters_change_nothing region_sales)).
  repeat constructor.
Defined.

(** X11 at the column of names, searching [budi]. *)
Lemma search_plain_text_names :
  search_rows names "budi"
  = Ok [ {| name := "Nama"; values := Object [Some "Budi"] |} ].
Proof.
  rewrite (search_plain_text names "budi" eq_refl eq_refl eq_refl
             ltac:(repeat constructor)).
  reflexivity.
Defined.

(* ===================================================================== *)
(** ** Letter case *)
(* ===================================================================== *)

Lemma lower_lower (a : ascii) : Regex.lower (Regex.lower a) = Regex.lower a.
Proof. destruct a as [[] [] [] [] [] [] [] []]; reflexivity. Qed.

Lemma lower_newline (a : ascii) :
  Ascii.eqb (Regex.lower a) Regex.newline = Ascii.eqb a Regex.newline.
Proof. destruct a as [[] [] [] [] [] [] [] []]; reflexivity. Qed.

Lemma is_meta_lower (a : ascii) : Regex.is_meta (Regex.lower a) = Regex.is_meta a.
Proof. destruct a as [[] [] [] [] [] [] [] []]; reflexivity. Qed.

Lemma is_ascii_lower (a : ascii) : Regex.is_ascii (Regex.lower a) = Regex.is_ascii a.
Proof. destruct a as [[] [] [] [] [] [] [] []]; reflexivity. Qed.

Lemma deriv_lower (a : ascii) (r : Regex.regex) :
  Regex.deriv (Regex.lower a) r = Regex.deriv a r.
Proof.
  induction r as [| | c | | r1 IH1 r2 IH2 | r1 IH1 r2 IH2 | r1 IH1]; simpl;
    rewrite ?lower_lower, ?lower_newline, ?IH1, ?IH2; reflexivity.
Qed.

Lemma match_prefix_lowercase (s : string) :
  forall r, Regex.match_prefix r (lowercase s) = Regex.match_prefix r s.
Proof.
  induction s as [| a s IH]; intros r; simpl; [reflexivity |].
  now rewrite deriv_lower, IH.
Qed.

Lemma search_lowercase (r : Regex.regex) (s : string) :
  Regex.search r (lowercase s) = Regex.search r s.
Proof.
  induction s as [| a s IH]; [reflexivity |].
  cbn [lowercase Regex.search].
  rewrite IH. f_equal.
  exact (match_prefix_lowercase (String a s) r).
Qed.

Lemma ascii_text_lowercase (s : string) :
  Regex.ascii_text (lowercase s) = Regex.ascii_text s.
Proof.
  induction s as [| a s IH]; simpl; [reflexivity |].
  now rewrite is_ascii_lower, IH.
Qed.

Lemma plain_lowercase (q : string) : Regex.plain (lowercase q) = Regex.plain q.
Proof.
  induction q as [| c q IH]; simpl; [reflexivity |].
  now rewrite is_meta_lower, IH.
Qed.

Lemma starts_with_lowercase (q : string) :
  forall s, Regex.starts_with (lowercase q) s = Regex.starts_with q s.
Proof.
  induction q as [| c q IH]; intros s; simpl; [reflexivity |].
  destruct s as [| a s]; [reflexivity |]. now rewrite lower_lower, IH.
Qed.

Lemma occurs_in_lowercase (q s : string) :
  Regex.occurs_in (lowercase q) s = Regex.occurs_in q s.
Proof.
  induction s as [| a s IH]; cbn [Regex.occurs_in];
    rewrite starts_with_lowercase; [reflexivity | now rewrite IH].
Qed.

Section LetterCase.

Context {N : Numeric} {F : Floating}.

Lemma str_contains_lowercase (q : string) (xs : list string) :
  str_contains q (map lowercase xs) = str_contains q xs.
Proof.
  unfold str_contains. destruct (Regex.compile q); try reflexivity.
  assert (Ha : forallb Regex.ascii_text (map lowercase xs)
               = forallb Regex.ascii_text xs).
  { rewrite forallb_map. induction xs as [| x xs IH]; simpl; [reflexivity |].
    now rewrite ascii_text_lowercase, IH. }
  rewrite Ha. destruct (forallb Regex.ascii_text xs); [| reflexivity].
  f_equal. rewrite map_map. apply map_ext. intros x. apply search_lowercase.
Qed.

Lemma astype_str_lowercase (s : Series) :
  astype_str (match values s with
              | Object xs => Object (map (option_map lowercase) xs)
              | d => d
              end)
  = match values s with
    | Object _ => map lowercase (astype_str (values s))
    | _ => astype_str (values s)
    end.
Proof.
  destruct (values s); simpl; try reflexivity.
  rewrite !map_map. apply map_ext. now intros [x |].
Qed.

Lemma len_lowercase_cells (df : DataFrame) : len (lowercase_cells df) = len df.
Proof.
  destruct df as [| s df]; [reflexivity |]. simpl.
  destruct (values s); simpl; try reflexivity. apply length_map.
Qed.

(** X12.  The search does not see letter case.  Putting every text cell of
    the dataset in lower case does not change the rows any search text
    matches (nor whether the search raises); and for a search text without
    pattern characters, putting the search text in lower case does not
    change what the search returns. *)
Theorem search_ignores_letter_case (df : DataFrame) (search : string) :
  search_mask (lowercase_cells df) search = search_mask df search /\
  (Regex.plain search = true ->
   search_rows df (lowercase search) = search_rows df search).
Proof.
  split.
  - unfold search_mask. rewrite len_lowercase_cells.
    destruct (Nat.eqb (len df) 0); [reflexivity |].
    unfold lowercase_cells. rewrite mapM_map. cbn [values].
    assert (E : forall l : DataFrame,
      mapM (fun s => str_contains search
                       (astype_str match values s with
                                   | Object xs => Object (map (option_map lowercase) xs)
                                   | d => d
                                   end)) l
      = mapM (fun s => str_contains search (astype_str (values s))) l).
    { induction l as [| s l IH]; [reflexivity |]. cbn [mapM].
      rewrite IH, astype_str_lowercase.
      destruct (values s); try reflexivity. now rewrite str_contains_lowercase. }
    now rewrite E.
  - intros Hp. unfold search_rows, search_mask.
    assert (Ht : truthy (lowercase search) = truthy search) by now destruct search.
    rewrite Ht. destruct (truthy search); [| reflexivity].
    destruct (Nat.eqb (len df) 0); [reflexivity |].
    assert (E : forall xs, str_contains (lowercase search) xs = str_contains search xs).
    { intros xs. unfold str_contains.
      destruct (Regex.ascii_text search) eqn:Ha.
      - rewrite (RegexFacts.compile_plain search Hp Ha).
        rewrite (RegexFacts.compile_plain (lowercase search))
          by (now rewrite ?plain_lowercase, ?ascii_text_lowercase).
        destruct (forallb Regex.ascii_text xs); [| reflexivity].
        f_equal. apply map_ext. intros x.
        now rewrite !RegexFacts.search_literal, occurs_in_lowercase.
      - unfold Regex.compile.
        rewrite (RegexFacts.parse_plain_outside search _ _ Hp Ha).
        rewrite (RegexFacts.parse_plain_outside (lowercase search))
          by (now rewrite ?plain_lowercase, ?ascii_text_lowercase).
        reflexivity. }
    assert (E' : forall l : DataFrame,
      mapM (fun s => str_contains (lowercase search) (astype_str (values s))) l
      = mapM (fun s => str_contains search (astype_str (values s))) l).
    { induction l as [| s l IH]; [reflexivity |]. cbn [mapM]. now rewrite IH, E. }
    now rewrite E'.
Qed.

End LetterCase.

(** X12 at the column of names, searching [BUDI]. *)
Lemma search_ignores_letter_case_names :
  search_rows names (lowercase "BUDI") = search_rows names "BUDI".
Proof.
  exact (proj2 (search_ignores_letter_case names "BUDI") eq_refl).
Defined.

(* ===================================================================== *)
(** ** Options, caps and counts *)
(* ===================================================================== *)

(** X13.  The options of a filter are [Semua] followed by the distinct
    non-missing values of the column in strictly ascending order; a missing
    value is never offered.  A selection that holds [Semua] filters nothing,
    whatever else it holds. *)
Theorem filter_options (xs : list (option string)) :
  exists vs, unique_vals xs = "Semua" :: vs /\
    StronglySorted (lt_by String.compare) vs /\
    (forall v, In v vs <-> In (Some v) xs) /\
    (forall vals, In "Semua" vals -> active vals = false).
Proof.
  exists (sort String.compare (unique String.eqb (dropna xs))).
  split; [reflexivity |]. split; [| split].
  - apply sort_strict.
    + apply str_compare_eq.
    + apply str_compare_opp.
    + apply str_compare_trans.
    + apply unique_NoDup, String.eqb_eq.
  - intros v. rewrite <- dropna_In.
    rewrite <- (unique_In _ String.eqb String.eqb_eq (dropna xs) v).
    split; apply Permutation_in;
      [apply sort_perm | apply Permutation_sym, sort_perm].
  - intros vals H. unfold active. now rewrite (proj2 (mem_In _ _) H).
Qed.

(** X13 at a column with a repeated and a missing value. *)
Lemma filter_options_b_a :
  unique_vals [Some "b"; None; Some "a"; Some "b"] = ["Semua"; "a"; "b"] /\
  active ["Semua"; "a"] = false.
Proof.
  destruct (filter_options [Some "b"; None; Some "a"; Some "b"])
    as [vs [E [_ [_ H]]]].
  split; [reflexivity |]. apply H. now left.
Defined.

Lemma flat_map_length_2 {A B} (f : A -> list B) (l : list A) :
  (forall a, List.length (f a) = 2) ->
  List.length (flat_map f l) = 2 * List.length l.
Proof.
  intros H. induction l as [| a l IH]; simpl; [reflexivity |].
  rewrite length_app, H, IH. lia.
Qed.

Section Caps.

Context {N : Numeric} {F : Floating}.
Variable sort_values : list (string * nat) -> list (string * nat).

(** X14.  The caps of the simple mode: at most four pies, one for each of
    the first categorical columns, each with at most ten slices; a histogram
    and a box plot for each of at most three numeric columns; one described
    column per numeric column and one row of [cat_info] per categorical
    column, without a cap. *)
Theorem simple_mode_caps (df : DataFrame) (filters : list (string * list string))
  (search : string) (t : tabs) :
  simple_mode sort_values df filters search = Ok t ->
  List.length (grafik_kategori t) = Nat.min 4 (List.length (categorical_cols df)) /\
  Forall (fun c => match c with
                   | pie _ slices => List.length slices <= 10
                   | _ => False
                   end) (grafik_kategori t) /\
  List.length (grafik_angka t) = 2 * Nat.min 3 (List.length (numeric_cols df)) /\
  List.length (statistik t) = List.length (numeric_cols df) /\
  List.length (cat_info t) = List.length (categorical_cols df).
Proof.
  intros H.
  destruct (simple_mode_Ok sort_values df filters search t H)
    as [f [d [_ [_ [H1 [H2 [H3 H4]]]]]]].
  split; [| split; [| split; [| split]]].
  - rewrite <- (Forall2_length H1), length_firstn. lia.
  - clear - H1. induction H1 as [| col c cols cs [xs [_ ->]] _ IH]; constructor.
    + rewrite length_firstn. lia.
    + exact IH.
  - rewrite H2, flat_map_length_2 by (intros; reflexivity).
    now rewrite length_firstn.
  - now rewrite <- (Forall2_length H3).
  - now rewrite <- (Forall2_length H4).
Qed.

End Caps.

(** X14 at the dataset of the scenario. *)
Lemma simple_mode_caps_region_sales :
  exists t, simple_mode (fun counts => counts) region_sales [] "b" = Ok t /\
    List.length (grafik_kategori t) = 1 /\ List.length (grafik_angka t) = 2.
Proof.
  eexists. split; [reflexivity |].
  pose proof (simple_mode_caps (fun counts => counts) region_sales [] "b" _ eq_refl)
    as [H1 [_ [H2 _]]].
  split; [exact H1 | exact H2].
Defined.

(* ===================================================================== *)
(** ** The least and the greatest value of a group *)
(* ===================================================================== *)

Section Extremes.

Variable A : Type.
Variable leb : A -> A -> bool.
Hypothesis leb_total : forall a b, leb a b = true \/ leb b a = true.
Hypothesis leb_trans :
  forall a b c, leb a b = true -> leb b c = true -> leb a c = true.

Lemma leb_refl (a : A) : leb a a = true.
Proof. now destruct (leb_total a a). Qed.

Lemma fold_least (l : list A) :
  forall x, In (fold_left (least leb) l x) (x :: l) /\
            forall y, In y (x :: l) -> leb (fold_left (least leb) l x) y = true.
Proof.
  induction l as [| z l IH]; intros x; simpl.
  - split; [now left | intros y [<- | []]; apply leb_refl].
  - destruct (IH (least leb x z)) as [Hin Hle].
    assert (Hx : leb (least leb x z) x = true /\ leb (least leb x z) z = true).
    { unfold least. destruct (leb x z) eqn:E.
      - split; [apply leb_refl | exact E].
      - split; [| apply leb_refl].
        destruct (leb_total x z); congruence. }
    split.
    + destruct Hin as [Hin | Hin]; [| auto].
      rewrite <- Hin. unfold least. destruct (leb x z); auto.
    + intros y [<- | [<- | Hy]].
      * apply leb_trans with (least leb x z); [apply Hle; now left | apply Hx].
      * apply leb_trans with (least leb x z); [apply Hle; now left | apply Hx].
      * apply Hle. now right.
Qed.

Lemma fold_greatest (l : list A) :
  forall x, In (fold_left (greatest leb) l x) (x :: l) /\
            forall y, In y (x :: l) -> leb y (fold_left (greatest leb) l x) = true.
Proof.
  induction l as [| z l IH]; intros x; simpl.
  - split; [now left | intros y [<- | []]; apply leb_refl].
  - destruct (IH (greatest leb x z)) as [Hin Hle].
    assert (Hx : leb x (greatest leb x z) = true /\ leb z (greatest leb x z) = true).
    { unfold greatest. destruct (leb x z) eqn:E.
      - split; [exact E | apply leb_refl].
      - split; [apply leb_refl |].
        destruct (leb_total x z); congruence. }
    split.
    + destruct Hin as [Hin | Hin]; [| auto].
      rewrite <- Hin. unfold greatest. destruct (leb x z); auto.
    + intros y [<- | [<- | Hy]].
      * apply leb_trans with (greatest leb x z); [apply Hx | apply Hle; now left].
      * apply leb_trans with (greatest leb x z); [apply Hx | apply Hle; now left].
      * apply Hle. now right.
Qed.

End Extremes.

Section MinMax.

Context {N : Numeric} {F : Floating}.
Hypothesis num_leb_total : forall a b, num_leb a b = true \/ num_leb b a = true.
Hypothesis num_leb_trans :
  forall a b c, num_leb a b = true -> num_leb b c = true -> num_leb a c = true.
Hypothesis flt_leb_total : forall a b, flt_leb a b = true \/ flt_leb b a = true.
Hypothesis flt_leb_trans :
  forall a b c, flt_leb a b = true -> flt_leb b c = true -> flt_leb a c = true.

(** X16.  The operations [min] and [max] on the values of a group, for an
    order that is total and transitive: a group without a non-missing value
    gives [NaN]; otherwise [min] gives a value of the group that is below
    every non-missing value of the group and [max] a value of the group that
    is above every one.  This holds of the groups of a float64 column, whose
    cells can be missing, and of the groups of an int64 column. *)
Theorem min_max_of_a_group :
  (forall xs : list (option flt),
     (dropna xs = [] ->
      reduce Min (Floats xs) = NaN /\ reduce Max (Floats xs) = NaN) /\
     (dropna xs <> [] ->
      exists lo hi,
        reduce Min (Floats xs) = FloatValue lo /\
        reduce Max (Floats xs) = FloatValue hi /\
        In (Some lo) xs /\ In (Some hi) xs /\
        forall x, In (Some x) xs -> flt_leb lo x = true /\ flt_leb x hi = true)) /\
  (forall xs : list num,
     (xs = [] -> reduce Min (Ints xs) = NaN /\ reduce Max (Ints xs) = NaN) /\
     (xs <> [] ->
      exists lo hi,
        reduce Min (Ints xs) = Value lo /\ reduce Max (Ints xs) = Value hi /\
        In lo xs /\ In hi xs /\
        forall x, In x xs -> num_leb lo x = true /\ num_leb x hi = true)).
Proof.
  split; intros xs; unfold reduce; split.
  - intros ->. now split.
  - intros Hne. destruct (dropna xs) as [| x l] eqn:E; [congruence |].
    destruct (fold_least _ flt_leb flt_leb_total flt_leb_trans l x) as [Hin1 Hle1].
    destruct (fold_greatest _ flt_leb flt_leb_total flt_leb_trans l x) as [Hin2 Hle2].
    exists (fold_left (least flt_leb) l x), (fold_left (greatest flt_leb) l x).
    split; [reflexivity |]. split; [reflexivity |].
    rewrite <- E in Hin1, Hin2.
    split; [now apply dropna_In |]. split; [now apply dropna_In |].
    intros y Hy. apply dropna_In in Hy. rewrite E in Hy. auto.
  - intros ->. now split.
  - intros Hne. destruct xs as [| x l]; [congruence |].
    destruct (fold_least _ num_leb num_leb_total num_leb_trans l x) as [Hin1 Hle1].
    destruct (fold_greatest _ num_leb num_leb_total num_leb_trans l x) as [Hin2 Hle2].
    exists (fold_left (least num_leb) l x), (fold_left (greatest num_leb) l x).
    split; [reflexivity |]. split; [reflexivity |].
    split; [exact Hin1 |]. split; [exact Hin2 |]. auto.
Qed.

End MinMax.

Lemma int64_leb_total (a b : @num int64) :
  num_leb a b = true \/ num_leb b a = true.
Proof.
  cbn [num_leb int64].
  destruct (Z.leb_spec (word.signed a) (word.signed b)); [now left | right].
  apply Z.leb_le. lia.
Qed.

Lemma int64_leb_trans (a b c : @num int64) :
  num_leb a b = true -> num_leb b c = true -> num_leb a c = true.
Proof.
  cbn [num_leb int64]. rewrite !Z.leb_le. lia.
Qed.

(** X16 at a group of three int64 values, and at a group of floats one of
    which is missing. *)
Lemma min_max_of_a_group_int64 :
  (exists lo hi,
     reduce Min (Ints [i64 20; i64 (-5); i64 7]) = Value lo /\
     reduce Max (Ints [i64 20; i64 (-5); i64 7]) = Value hi /\
     lo = i64 (-5) /\ hi = i64 20) /\
  reduce Min (Floats [Some tt; None]) = FloatValue tt.
Proof.
  pose proof (@min_max_of_a_group int64 only_zero int64_leb_total int64_leb_trans
                (fun _ _ => or_introl eq_refl) (fun _ _ _ _ _ => eq_refl))
    as [Hf Hi].
  split.
  - destruct (proj2 (Hi [i64 20; i64 (-5); i64 7]))
      as [lo [hi [Hlo [Hhi _]]]]; [discriminate |].
    exists lo, hi. split; [exact Hlo |]. split; [exact Hhi |].
    split.
    + assert (E : Value lo = Value (i64 (-5))) by (rewrite <- Hlo; reflexivity).
      now injection E.
    + assert (E : Value hi = Value (i64 20)) by (rewrite <- Hhi; reflexivity).
      now injection E.
  - destruct (proj2 (Hf [Some tt; None])) as [lo [hi [Hlo _]]]; [discriminate |].
    destruct lo. exact Hlo.
Defined.

(* ===================================================================== *)
(** ** Selecting columns *)
(* ===================================================================== *)

Section Columns.

Context {N : Numeric} {F : Floating}.

Lemma select_columns_Ok (df_original : DataFrame) (selected : list string) :
  incl selected (columns df_original) ->
  exists df, select_columns df_original selected = Ok df /\
    columns df = selected /\ incl df df_original.
Proof.
  unfold select_columns.
  induction selected as [| c selected IH]; intros Hin.
  - exists []. repeat split. intros s [].
  - destruct (In_columns_getitem df_original c (Hin c (or_introl eq_refl)))
      as [s Hs].
    destruct IH as [df [E [Hc Hsub]]]; [intros x Hx; apply Hin; now right |].
    exists (s :: df). cbn [mapM]. rewrite Hs, E. cbn [bind].
    apply getitem_In in Hs. destruct Hs as [Hs Hname].
    split; [reflexivity |]. split.
    + simpl. now rewrite Hname, Hc.
    + intros x [<- | Hx]; auto.
Qed.

(** X17.  Selecting columns ([df_original[selected_columns]]): when the
    selected names are columns of the dataset, the selection has exactly the
    selected columns, in the order they were selected, each with the cells it
    has in the dataset; a selection of at least one column of a rectangular
    dataset is rectangular with the same number of rows.  Selecting all the
    columns, the default, returns the dataset. *)
Theorem column_selection (df_original : DataFrame) (selected : list string) :
  (incl selected (columns df_original) ->
   exists df, select_columns df_original selected = Ok df /\
     columns df = selected /\ incl df df_original /\
     (rectangular df_original -> selected <> [] ->
      rectangular df /\ len df = len df_original)) /\
  (NoDup (columns df_original) ->
   select_columns df_original (columns df_original) = Ok df_original).
Proof.
  split.
  - intros Hin.
    destruct (select_columns_Ok df_original selected Hin) as [df [E [Hc Hsub]]].
    exists df. repeat split; try assumption.
    + intros s Hs. destruct df as [| s0 df]; [destruct Hs |].
      simpl. rewrite (H s (Hsub s Hs)), (H s0 (Hsub s0 (or_introl eq_refl))).
      reflexivity.
    + destruct df as [| s0 df]; [subst selected; simpl in *; congruence |].
      simpl. apply H, Hsub. now left.
  - intros Hnd. unfold select_columns, columns.
    assert (E : forall l, incl l df_original ->
                  mapM (getitem df_original) (map name l) = Ok l).
    { induction l as [| s l IH]; intros Hl; [reflexivity |].
      cbn [map mapM].
      rewrite (In_getitem df_original s Hnd (Hl s (or_introl eq_refl))).
      rewrite IH by (intros x Hx; apply Hl; now right). reflexivity. }
    apply E. intros s Hs. exact Hs.
Qed.

Lemma dropna_single (kxs : list (option string)) :
  dropna (map (option_map (fun x => [x])) kxs) = map (fun x => [x]) (dropna kxs).
Proof.
  induction kxs as [| [x |] l IH]; simpl; [reflexivity | now rewrite IH | exact IH].
Qed.

Lemma key_eqb_single (x y : string) : key_eqb [x] [y] = String.eqb x y.
Proof.
  destruct (String.eqb_spec x y) as [-> | Hne].
  - now apply key_eqb_eq.
  - destruct (key_eqb [x] [y]) eqn:E; [| reflexivity].
    apply key_eqb_eq in E. congruence.
Qed.

Lemma unique_single (l : list string) :
  unique key_eqb (map (fun x => [x]) l)
  = map (fun x => [x]) (unique String.eqb l).
Proof.
  assert (Hu : forall l seen,
    fold_left (fun seen k => if existsb (key_eqb k) seen then seen else seen ++ [k])
              (map (fun x => [x]) l) (map (fun x : string => [x]) seen)
    = map (fun x => [x])
          (fold_left (fun seen x => if existsb (String.eqb x) seen then seen
                                    else seen ++ [x]) l seen)).
  { clear l. induction l as [| x l IH]; intros seen; [reflexivity |].
    cbn [map fold_left].
    assert (Hex : existsb (key_eqb [x]) (map (fun y : string => [y]) seen)
                  = existsb (String.eqb x) seen).
    { induction seen as [| y seen IHs]; [reflexivity |].
      simpl. now rewrite key_eqb_single, IHs. }
    rewrite Hex. destruct (existsb (String.eqb x) seen); [apply IH |].
    rewrite <- IH. f_equal. now rewrite map_app. }
  exact (Hu l []).
Qed.

(** X18.  The count by one column and the summary of that column agree: the
    count has as many rows as the column has distinct non-missing values,
    the number shown as [Jumlah Unik]. *)
Theorem count_rows_are_the_distinct_values (df : DataFrame) (g v : string)
  (kxs : list (option string)) :
  rectangular df -> key_column df g = Ok kxs -> g <> "Hasil" ->
  exists r, compute df [g] v Count = Ok r /\
    List.length (res_rows r) = nunique kxs.
Proof.
  intros Hrect Hg Hname. unfold compute, groupby_size.
  rewrite (groupby_single df g kxs Hrect Hg). cbn [bind].
  assert (Hm : mem "Hasil" [g] = false)
    by (apply mem_not_In; intros [E | []]; congruence).
  rewrite Hm. eexists. split; [reflexivity |]. cbn [res_rows].
  rewrite length_map. unfold group_keys, nunique.
  rewrite (Permutation_length (sort_perm _ _ _)).
  rewrite dropna_single, unique_single. apply length_map.
Qed.

End Columns.

(** X17 at the dataset of the scenario, selecting its sales and its region. *)
Lemma column_selection_region_sales :
  exists df, select_columns region_sales ["Sales"; "Region"] = Ok df /\
    columns df = ["Sales"; "Region"] /\ len df = 3.
Proof.
  destruct (proj1 (column_selection region_sales ["Sales"; "Region"]))
    as [df [E [Hc [_ Hr]]]].
  - intros c [<- | [<- | []]]; simpl; auto.
  - exists df. split; [exact E |]. split; [exact Hc |].
    now destruct (Hr region_sales_rectangular ltac:(discriminate)) as [_ ->].
Defined.

(** X18 at the dataset of the scenario. *)
Lemma count_rows_are_the_distinct_values_region_sales :
  exists r, compute region_sales ["Region"] "Sales" Count = Ok r /\
    List.length (res_rows r) = 2.
Proof.
  destruct (count_rows_are_the_distinct_values region_sales "Region" "Sales"
              [Some "A"; Some "A"; Some "B"] region_sales_rectangular eq_refl)
    as [r [Hr Hn]]; [discriminate |].
  exists r. split; [exact Hr | exact Hn].
Defined.

(* ===================================================================== *)
(** ** The names of the operations *)
(* ===================================================================== *)

Lemma dict_get_default (d : list (string * string)) (key default : string) :
  ~ In key (map fst d) -> dict_get d key default = default.
Proof.
  induction d as [| [k v] d IH]; simpl; [reflexivity |].
  intros H. destruct (String.eqb_spec k key) as [E | E]; [tauto |].
  apply IH. tauto.
Qed.

(** X19.  Every operation the selectbox offers has a name of its own in
    [get_aggregation_name]: the name comes from the dictionary, it is not the
    key itself, and two operations never share a name.  A key the dictionary
    does not have is returned as it is. *)
Theorem every_operation_has_a_name :
  (forall op, In op agg_options /\
     In (agg_key op, get_aggregation_name (agg_key op)) mapping /\
     get_aggregation_name (agg_key op) <> agg_key op) /\
  (forall op1 op2,
     get_aggregation_name (agg_key op1) = get_aggregation_name (agg_key op2) ->
     op1 = op2) /\
  (forall key, ~ In key (map fst mapping) -> get_aggregation_name key = key).
Proof.
  split; [| split].
  - intros op. destruct op; (split; [simpl; tauto |]);
      (split; [simpl; tauto | discriminate]).
  - intros op1 op2. destruct op1, op2; intros H; try reflexivity; discriminate H.
  - intros key H. now apply dict_get_default.
Qed.

(** X19 at a key the dictionary does not have. *)
Lemma every_operation_has_a_name_first :
  get_aggregation_name "first" = "first".
Proof.
  apply (proj2 (proj2 every_operation_has_a_name)).
  simpl. intuition discriminate.
Defined.
